(** * The UniFi Protect controller client (protect-api.ts)

    A shallow embedding of the [ProtectApi] class: the transport governor
    ([fetch]), device-type detection ([acquireToken]), the session
    ([loginProtect], [clearLoginCredentials]), bootstrap synchronisation
    ([bootstrapProtect], [refreshDevices], [checkAdminUserStatus]), the
    realtime event listener ([launchEventListener],
    [heartbeatEventListener]) and the device actions ([enableRtsp],
    [updateCamera]).

    The class is stateful and talks to the network, the clock and a
    WebSocket.  The object's fields are a record that is threaded through a
    state-and-exception monad; the outside world (clock readings, network
    answers, whether a socket can be constructed) is an oracle indexed by
    the number of the call, so that every operation is a total, executable
    function.  Socket events and timers come from outside, between the
    operations, and are functions on the same record.

    The definitions come first: the data, the methods, the event handlers,
    the notions the statements need, and the concrete controllers and
    sessions of the examples.  The proofs follow, component by
    component. *)

From stdpp Require Import base gmap strings list.
From Stdlib Require Import ZArith Ascii Lia.

Local Open Scope string_scope.
Local Open Scope list_scope.
Local Open Scope Z_scope.

(** ** Data model *)

(** Modelled from the spec: protect-types.ts is not among the sources; a
    channel carries an id and the RTSP flag. *)
Record ProtectCameraChannelConfigInterface := Channel {
  channel_id : Z;
  isRtspEnabled : bool
}.

(** Modelled from the spec: protect-types.ts is not among the sources; a
    device has the fields the client reads ([id], [mac], [modelKey], [name],
    [host], [type], [isManaged], [channels]).  [channels] may be missing. *)
Record ProtectCameraConfig := Camera {
  id : string;
  mac : string;
  modelKey : string;
  name : string;
  host : string;
  type : string;
  isManaged : bool;
  channels : option (list ProtectCameraChannelConfigInterface)
}.

(** Modelled from the spec: protect-types.ts is not among the sources; a
    user record has an id and a list of permission strings, which may be
    missing. *)
Record ProtectNvrUserConfig := User {
  user_id : string;
  allPermissions : option (list string)
}.

(** Modelled from the spec: protect-types.ts is not among the sources; the
    controller's own description. *)
Record ProtectNvrConfig := Nvr {
  nvr_name : string;
  nvr_type : string;
  nvr_host : string;
  nvr_mac : string
}.

(** Modelled from the spec: protect-types.ts is not among the sources; the
    bootstrap body.  A field that is absent (or null) in the JSON is
    [None]. *)
Record ProtectNvrBootstrap := Bootstrap {
  authUserId : string;
  cameras : option (list ProtectCameraConfig);
  users : option (list ProtectNvrUserConfig);
  nvr : option ProtectNvrConfig
}.

(** Modelled from the spec: protect-types.ts is not among the sources; an
    arbitrary partial update, kept as its JSON text. *)
Definition ProtectCameraConfigPayload := string.

(** What [response.json()] can decode to. *)
Inductive Json :=
| JNull
| JBootstrap (b : ProtectNvrBootstrap)
| JCamera (c : ProtectCameraConfig).

(** node-fetch [Headers]; the client always spells a header name the same
    way, so names are compared as they are written. *)
Abbreviation Headers := (gmap string string).

(** node-fetch [Response].  [body] is [None] when [json()] rejects. *)
Record Response := mkResponse {
  status : Z;
  statusText : string;
  response_headers : Headers;
  body : option Json
}.

Definition ok (r : Response) : bool := (200 <=? status r) && (status r <? 300).

Inductive Method := GET | POST | PATCH.

Inductive RequestBody :=
| NoBody
| LoginBody (user pass : string)
| ChannelsBody (chs : list ProtectCameraChannelConfigInterface)
| PayloadBody (p : ProtectCameraConfigPayload).

(** [https.Agent]: only the keepalive option differs between the two agents
    the client builds. *)
Record Agent := mkAgent { keepAlive : bool }.

(** One call of node-fetch: [url], and [options] with the agent and the
    headers that [fetch] has put in. *)
Record Request := mkRequest {
  request_url : string;
  request_method : Method;
  request_body : RequestBody;
  request_headers : Headers;
  request_agent : Agent
}.

(** What node-fetch does with a request: it rejects with an error that has
    a [code], or it resolves to a response. *)
Inductive NetResult :=
| NetError (code : string)
| NetResponse (r : Response).

(** The messages handed to [log] and [debug], by the place they come from.
    Their wording ([getNvrName], [getDeviceName]) is not modelled. *)
Inductive Message :=
| MsgThrottling (count : Z)
| MsgResuming
| MsgInvalidCredentials
| MsgInsufficientPrivileges
| MsgHttpError (st : Z) (text : string)
| MsgConnectionRefused
| MsgConnectionReset
| MsgHostNotFound
| MsgTransportError (code : string)
| MsgNoNvrConfiguration
| MsgUnparsable
| MsgNoCameras
| MsgConnected (nvr_host nvr_mac : string)
| MsgInspectBootstrap
| MsgSystemListener (url : string)
| MsgEventsConnected
| MsgEventsConnectError
| MsgSocketError (text : string)
| MsgDiscovered (c : ProtectCameraConfig)
| MsgInspectDevice (c : ProtectCameraConfig)
| MsgRemoval (c : ProtectCameraConfig)
| MsgAdminRequired
| MsgRoleChange (enabled : bool)
| MsgRtspForbidden (c : ProtectCameraConfig)
| MsgRtspFailed (c : ProtectCameraConfig) (st : Z)
| MsgPayload (c : ProtectCameraConfig) (p : ProtectCameraConfigPayload)
| MsgConfigureFailed (c : ProtectCameraConfig) (st : Z).

Inductive Output :=
| Log (m : Message)
| Debug (m : Message).

(** settings.ts is not among the sources: its four constants are taken as
    parameters. *)
Record Settings := mkSettings {
  PROTECT_API_ERROR_LIMIT : Z;
  PROTECT_API_RETRY_INTERVAL : Z;
  PROTECT_EVENTS_HEARTBEAT_INTERVAL : Z;
  PROTECT_LOGIN_REFRESH_INTERVAL : Z
}.

(** The outside world.  [clock n] is what the [n]-th call of [Date.now()]
    returns, [network n rq] what node-fetch answers to the [n]-th request,
    [socket n url] whether the [n]-th [new WebSocket(url, ...)] returns
    (otherwise it throws). *)
Record World := mkWorld {
  clock : nat -> Z;
  network : nat -> Request -> NetResult;
  socket : nat -> string -> bool
}.

(** An object that a callback can have as its [this]: the client itself or
    one of the sockets it has constructed. *)
Inductive Obj :=
| ObjApi
| ObjSocket (ws : nat).

(** A [WebSocket] instance.  Besides being terminated or not, it holds the
    properties that code run with [this] bound to the socket creates on it
    ([None] is a property that was never assigned, [Some None] is null). *)
Record WebSocket := mkWebSocket {
  terminated : bool;
  ws_eventHeartbeatTimer : option nat;
  ws_eventListener : option (option nat);
  ws_eventListenerConfigured : option bool
}.

(** A timer made by [setTimeout]: when it is due, whether it is still
    pending, and the [self] its callback has captured. *)
Record Timer := mkTimer {
  due : Z;
  pending : bool;
  timer_self : Obj
}.

(** The fields of [ProtectApi], followed by the run-time bookkeeping:
    how often the clock was read, the requests that reached node-fetch,
    everything logged, and the sockets and timers created so far. *)
Record ProtectApi := mkProtectApi {
  apiErrorCount : Z;
  apiLastSuccess : Z;
  bootstrap : option ProtectNvrBootstrap;
  Cameras : option (list ProtectCameraConfig);
  eventHeartbeatTimer : option nat;
  eventListener : option nat;
  eventListenerConfigured : bool;
  headers : Headers;
  httpsAgent : Agent;
  isAdminUser : bool;
  isUnifiOs : bool;
  loggedIn : bool;
  loginAge : Z;
  nvrAddress : string;
  username : string;
  password : string;
  ticks : nat;
  requests : list Request;
  output : list Output;
  sockets : list WebSocket;
  timers : list Timer
}.

Definition set_apiErrorCount (v : Z) (s : ProtectApi) : ProtectApi :=
  mkProtectApi v (apiLastSuccess s) (bootstrap s) (Cameras s) (eventHeartbeatTimer s)
    (eventListener s) (eventListenerConfigured s) (headers s) (httpsAgent s)
    (isAdminUser s) (isUnifiOs s) (loggedIn s) (loginAge s) (nvrAddress s) (username s)
    (password s) (ticks s) (requests s) (output s) (sockets s) (timers s).
Definition set_apiLastSuccess (v : Z) (s : ProtectApi) : ProtectApi :=
  mkProtectApi (apiErrorCount s) v (bootstrap s) (Cameras s) (eventHeartbeatTimer s)
    (eventListener s) (eventListenerConfigured s) (headers s) (httpsAgent s)
    (isAdminUser s) (isUnifiOs s) (loggedIn s) (loginAge s) (nvrAddress s) (username s)
    (password s) (ticks s) (requests s) (output s) (sockets s) (timers s).
Definition set_bootstrap (v : option ProtectNvrBootstrap) (s : ProtectApi) : ProtectApi :=
  mkProtectApi (apiErrorCount s) (apiLastSuccess s) v (Cameras s)
    (eventHeartbeatTimer s) (eventListener s) (eventListenerConfigured s) (headers s)
    (httpsAgent s) (isAdminUser s) (isUnifiOs s) (loggedIn s) (loginAge s)
    (nvrAddress s) (username s) (password s) (ticks s) (requests s) (output s)
    (sockets s) (timers s).
Definition set_Cameras (v : option (list ProtectCameraConfig)) (s : ProtectApi) : ProtectApi :=
  mkProtectApi (apiErrorCount s) (apiLastSuccess s) (bootstrap s) v
    (eventHeartbeatTimer s) (eventListener s) (eventListenerConfigured s) (headers s)
    (httpsAgent s) (isAdminUser s) (isUnifiOs s) (loggedIn s) (loginAge s)
    (nvrAddress s) (username s) (password s) (ticks s) (requests s) (output s)
    (sockets s) (timers s).
Definition set_eventHeartbeatTimer (v : option nat) (s : ProtectApi) : ProtectApi :=
  mkProtectApi (apiErrorCount s) (apiLastSuccess s) (bootstrap s) (Cameras s) v
    (eventListener s) (eventListenerConfigured s) (headers s) (httpsAgent s)
    (isAdminUser s) (isUnifiOs s) (loggedIn s) (loginAge s) (nvrAddress s) (username s)
    (password s) (ticks s) (requests s) (output s) (sockets s) (timers s).
Definition set_eventListener (v : option nat) (s : ProtectApi) : ProtectApi :=
  mkProtectApi (apiErrorCount s) (apiLastSuccess s) (bootstrap s) (Cameras s)
    (eventHeartbeatTimer s) v (eventListenerConfigured s) (headers s) (httpsAgent s)
    (isAdminUser s) (isUnifiOs s) (loggedIn s) (loginAge s) (nvrAddress s) (username s)
    (password s) (ticks s) (requests s) (output s) (sockets s) (timers s).
Definition set_eventListenerConfigured (v : bool) (s : ProtectApi) : ProtectApi :=
  mkProtectApi (apiErrorCount s) (apiLastSuccess s) (bootstrap s) (Cameras s)
    (eventHeartbeatTimer s) (eventListener s) v (headers s) (httpsAgent s)
    (isAdminUser s) (isUnifiOs s) (loggedIn s) (loginAge s) (nvrAddress s) (username s)
    (password s) (ticks s) (requests s) (output s) (sockets s) (timers s).
Definition set_headers (v : Headers) (s : ProtectApi) : ProtectApi :=
  mkProtectApi (apiErrorCount s) (apiLastSuccess s) (bootstrap s) (Cameras s)
    (eventHeartbeatTimer s) (eventListener s) (eventListenerConfigured s) v
    (httpsAgent s) (isAdminUser s) (isUnifiOs s) (loggedIn s) (loginAge s)
    (nvrAddress s) (username s) (password s) (ticks s) (requests s) (output s)
    (sockets s) (timers s).
Definition set_httpsAgent (v : Agent) (s : ProtectApi) : ProtectApi :=
  mkProtectApi (apiErrorCount s) (apiLastSuccess s) (bootstrap s) (Cameras s)
    (eventHeartbeatTimer s) (eventListener s) (eventListenerConfigured s) (headers s) v
    (isAdminUser s) (isUnifiOs s) (loggedIn s) (loginAge s) (nvrAddress s) (username s)
    (password s) (ticks s) (requests s) (output s) (sockets s) (timers s).
Definition set_isAdminUser (v : bool) (s : ProtectApi) : ProtectApi :=
  mkProtectApi (apiErrorCount s) (apiLastSuccess s) (bootstrap s) (Cameras s)
    (eventHeartbeatTimer s) (eventListener s) (eventListenerConfigured s) (headers s)
    (httpsAgent s) v (isUnifiOs s) (loggedIn s) (loginAge s) (nvrAddress s) (username s)
    (password s) (ticks s) (requests s) (output s) (sockets s) (timers s).
Definition set_isUnifiOs (v : bool) (s : ProtectApi) : ProtectApi :=
  mkProtectApi (apiErrorCount s) (apiLastSuccess s) (bootstrap s) (Cameras s)
    (eventHeartbeatTimer s) (eventListener s) (eventListenerConfigured s) (headers s)
    (httpsAgent s) (isAdminUser s) v (loggedIn s) (loginAge s) (nvrAddress s)
    (username s) (password s) (ticks s) (requests s) (output s) (sockets s) (timers s).
Definition set_loggedIn (v : bool) (s : ProtectApi) : ProtectApi :=
  mkProtectApi (apiErrorCount s) (apiLastSuccess s) (bootstrap s) (Cameras s)
    (eventHeartbeatTimer s) (eventListener s) (eventListenerConfigured s) (headers s)
    (httpsAgent s) (isAdminUser s) (isUnifiOs s) v (loginAge s) (nvrAddress s)
    (username s) (password s) (ticks s) (requests s) (output s) (sockets s) (timers s).
Definition set_loginAge (v : Z) (s : ProtectApi) : ProtectApi :=
  mkProtectApi (apiErrorCount s) (apiLastSuccess s) (bootstrap s) (Cameras s)
    (eventHeartbeatTimer s) (eventListener s) (eventListenerConfigured s) (headers s)
    (httpsAgent s) (isAdminUser s) (isUnifiOs s) (loggedIn s) v (nvrAddress s)
    (username s) (password s) (ticks s) (requests s) (output s) (sockets s) (timers s).
Definition set_ticks (v : nat) (s : ProtectApi) : ProtectApi :=
  mkProtectApi (apiErrorCount s) (apiLastSuccess s) (bootstrap s) (Cameras s)
    (eventHeartbeatTimer s) (eventListener s) (eventListenerConfigured s) (headers s)
    (httpsAgent s) (isAdminUser s) (isUnifiOs s) (loggedIn s) (loginAge s)
    (nvrAddress s) (username s) (password s) v (requests s) (output s) (sockets s)
    (timers s).
Definition set_requests (v : list Request) (s : ProtectApi) : ProtectApi :=
  mkProtectApi (apiErrorCount s) (apiLastSuccess s) (bootstrap s) (Cameras s)
    (eventHeartbeatTimer s) (eventListener s) (eventListenerConfigured s) (headers s)
    (httpsAgent s) (isAdminUser s) (isUnifiOs s) (loggedIn s) (loginAge s)
    (nvrAddress s) (username s) (password s) (ticks s) v (output s) (sockets s)
    (timers s).
Definition set_output (v : list Output) (s : ProtectApi) : ProtectApi :=
  mkProtectApi (apiErrorCount s) (apiLastSuccess s) (bootstrap s) (Cameras s)
    (eventHeartbeatTimer s) (eventListener s) (eventListenerConfigured s) (headers s)
    (httpsAgent s) (isAdminUser s) (isUnifiOs s) (loggedIn s) (loginAge s)
    (nvrAddress s) (username s) (password s) (ticks s) (requests s) v (sockets s)
    (timers s).
Definition set_sockets (v : list WebSocket) (s : ProtectApi) : ProtectApi :=
  mkProtectApi (apiErrorCount s) (apiLastSuccess s) (bootstrap s) (Cameras s)
    (eventHeartbeatTimer s) (eventListener s) (eventListenerConfigured s) (headers s)
    (httpsAgent s) (isAdminUser s) (isUnifiOs s) (loggedIn s) (loginAge s)
    (nvrAddress s) (username s) (password s) (ticks s) (requests s) (output s) v
    (timers s).
Definition set_timers (v : list Timer) (s : ProtectApi) : ProtectApi :=
  mkProtectApi (apiErrorCount s) (apiLastSuccess s) (bootstrap s) (Cameras s)
    (eventHeartbeatTimer s) (eventListener s) (eventListenerConfigured s) (headers s)
    (httpsAgent s) (isAdminUser s) (isUnifiOs s) (loggedIn s) (loginAge s)
    (nvrAddress s) (username s) (password s) (ticks s) (requests s) (output s)
    (sockets s) v.

(** ** The monad of the client's methods

    A method reads and writes the object's fields and either returns or
    throws; what it wrote before throwing stays written. *)

Inductive Exception :=
| TypeError (what : string)
| SyntaxError.

Inductive Outcome (A : Type) :=
| Returned (a : A)
| Thrown (e : Exception).
Arguments Returned {A} a.
Arguments Thrown {A} e.

Definition M (A : Type) : Type := ProtectApi -> Outcome A * ProtectApi.

Definition ret {A} (a : A) : M A := fun s => (Returned a, s).
#[global] Instance M_ret : MRet M := @ret.
#[global] Instance M_bind : MBind M := fun A B k m s =>
  match m s with
  | (Returned a, s') => k a s'
  | (Thrown e, s') => (Thrown e, s')
  end.
Definition throw {A} (e : Exception) : M A := fun s => (Thrown e, s).
Definition get : M ProtectApi := fun s => (Returned s, s).
Definition modify (f : ProtectApi -> ProtectApi) : M unit := fun s => (Returned tt, f s).

Definition log (m : Message) : M unit :=
  modify (fun s => set_output (output s ++ [Log m]) s).
Definition debug (m : Message) : M unit :=
  modify (fun s => set_output (output s ++ [Debug m]) s).

(** A JavaScript string used as a condition: null, undefined and the empty
    string are false. *)
Definition truthy (v : option string) : bool :=
  match v with
  | Some (String _ _) => true
  | _ => false
  end.

Definition has (h : Headers) (k : string) : bool := bool_decide (is_Some (h !! k)).

(** [new Headers()] followed by setting the content type. *)
Definition freshHeaders : Headers := <["Content-Type" := "application/json"]> ∅.

(** ** The methods of the client *)

Section Client.

Variable cfg : Settings.
Variable world : World.

(** [Date.now()]. *)
Definition dateNow : M Z :=
  fun s => (Returned (clock world (ticks s)), set_ticks (S (ticks s)) s).

(** The call of node-fetch inside [fetch]: the request is recorded, the
    world answers. *)
Definition nodeFetch (url : string) (m : Method) (b : RequestBody) : M NetResult :=
  fun s =>
    let rq := mkRequest url m b (headers s) (httpsAgent s) in
    (Returned (network world (length (requests s)) rq),
     set_requests (requests s ++ [rq]) s).

(** [fetch]: the governor around every call.  [None] is the null that the
    source returns for a failure. *)
Definition fetch (url : string) (m : Method) (b : RequestBody)
    (logErrors decodeResponse : bool) : M (option Response) :=
  now ← dateNow;
  s ← get;
  proceed ←
    (if PROTECT_API_ERROR_LIMIT cfg <=? apiErrorCount s then
       if apiErrorCount s =? PROTECT_API_ERROR_LIMIT cfg then
         log (MsgThrottling (apiErrorCount s));;
         modify (fun s => set_apiErrorCount (apiErrorCount s + 1) s);;
         modify (set_apiLastSuccess now);;
         ret false
       else if now <? apiLastSuccess s + PROTECT_API_RETRY_INTERVAL cfg * 1000 then
         ret false
       else
         log MsgResuming;;
         modify (set_apiErrorCount 0);;
         ret true
     else ret true);
  if negb proceed then ret None else
  answer ← nodeFetch url m b;
  match answer with
  | NetError code =>
      modify (fun s => set_apiErrorCount (apiErrorCount s + 1) s);;
      (if String.eqb code "ECONNREFUSED" then log MsgConnectionRefused
       else if String.eqb code "ECONNRESET" then log MsgConnectionReset
       else if String.eqb code "ENOTFOUND" then log MsgHostNotFound
       else if logErrors then log (MsgTransportError code) else ret tt);;
      ret None
  | NetResponse response =>
      if negb decodeResponse then ret (Some response)
      else if status response =? 401 then
        log MsgInvalidCredentials;;
        modify (fun s => set_apiErrorCount (apiErrorCount s + 1) s);;
        ret None
      else if status response =? 403 then
        modify (fun s => set_apiErrorCount (apiErrorCount s + 1) s);;
        log MsgInsufficientPrivileges;;
        ret None
      else if negb (ok response) then
        modify (fun s => set_apiErrorCount (apiErrorCount s + 1) s);;
        log (MsgHttpError (status response) (statusText response));;
        ret None
      else
        t ← dateNow;
        modify (set_apiLastSuccess t);;
        modify (set_apiErrorCount 0);;
        ret (Some response)
  end.

(** [ws.terminate()]. *)
Definition terminate (ws : nat) (s : ProtectApi) : ProtectApi :=
  set_sockets
    (alter (fun o => mkWebSocket true (ws_eventHeartbeatTimer o) (ws_eventListener o)
                       (ws_eventListenerConfigured o)) ws (sockets s)) s.

(** [this.eventListener?.terminate()]. *)
Definition terminateListener (s : ProtectApi) : ProtectApi :=
  set_sockets
    match eventListener s with
    | Some ws => sockets (terminate ws s)
    | None => sockets s
    end s.

Definition clearLoginCredentials (s : ProtectApi) : ProtectApi :=
  let s := set_isAdminUser false s in
  let s := set_isUnifiOs false s in
  let s := set_loggedIn false s in
  let s := set_loginAge 0 s in
  let s := set_bootstrap None s in
  let s := terminateListener s in
  let s := set_eventListener None s in
  let s := set_eventListenerConfigured false s in
  let s := set_headers freshHeaders s in
  set_httpsAgent (mkAgent false) s.

Definition camerasUrl (s : ProtectApi) : string :=
  "https://" +:+ nvrAddress s +:+
  (if isUnifiOs s then "/proxy/protect/api/cameras" else ":7443/api/cameras").

Definition authUrl (s : ProtectApi) : string :=
  "https://" +:+ nvrAddress s +:+
  (if isUnifiOs s then "/api/auth/login" else ":7443/api/auth").

Definition bootstrapUrl (s : ProtectApi) : string :=
  "https://" +:+ nvrAddress s +:+
  (if isUnifiOs s then "/proxy/protect/api/bootstrap" else ":7443/api/bootstrap").

Definition systemEventsUrl (s : ProtectApi) : string :=
  if negb (isUnifiOs s) then EmptyString
  else "wss://" +:+ nvrAddress s +:+ "/api/ws/system".

(** The string in a header value that was tested to be one. *)
Definition text (v : option string) : string := default EmptyString v.

(** [response?.ok]. *)
Definition isOk (response : option Response) : bool :=
  match response with
  | Some r => ok r
  | None => false
  end.

Definition acquireToken : M bool :=
  s ← get;
  if loggedIn s || has (headers s) "X-CSRF-Token" || has (headers s) "Authorization"
  then ret true
  else
    response ← fetch ("https://" +:+ nvrAddress s) GET NoBody false true;
    let csrfToken := response ≫= (fun r => response_headers r !! "X-CSRF-Token") in
    if isOk response && truthy csrfToken then
      modify (fun s => set_headers (<["X-CSRF-Token" := text csrfToken]> (headers s)) s);;
      modify (set_isUnifiOs true);;
      modify (set_httpsAgent (mkAgent true));;
      ret true
    else
      response ← fetch ("https://" +:+ nvrAddress s +:+ ":7443/") GET NoBody false true;
      if isOk response then ret true else ret false.

Definition loginProtect : M bool :=
  now ← dateNow;
  s ← get;
  (if loginAge s + PROTECT_LOGIN_REFRESH_INTERVAL cfg * 1000 <? now then
     modify (set_loggedIn false);;
     modify (set_headers freshHeaders)
   else ret tt);;
  s ← get;
  if loggedIn s then ret true else
  token ← acquireToken;
  if negb token then ret false else
  s ← get;
  response ← fetch (authUrl s) POST (LoginBody (username s) (password s)) true true;
  if negb (isOk response) then ret false else
  modify (set_loggedIn true);;
  modify (set_loginAge now);;
  let csrfToken := response ≫= (fun r => response_headers r !! "X-CSRF-Token") in
  let cookie := response ≫= (fun r => response_headers r !! "Set-Cookie") in
  s ← get;
  if truthy csrfToken && truthy cookie && has (headers s) "X-CSRF-Token" then
    modify (fun s => set_headers (<["Cookie" := text cookie]> (headers s)) s);;
    modify (fun s => set_headers (<["X-CSRF-Token" := text csrfToken]> (headers s)) s);;
    ret true
  else
    let authToken := response ≫= (fun r => response_headers r !! "Authorization") in
    if truthy authToken then
      modify (fun s =>
        set_headers (<["Authorization" := "Bearer " +:+ text authToken]> (headers s)) s);;
      ret true
    else
      modify clearLoginCredentials;;
      ret false.

(** [String.prototype.split] with a one-character separator. *)
Fixpoint split (sep : ascii) (s : string) : list string :=
  match s with
  | EmptyString => [EmptyString]
  | String c rest =>
      if Ascii.eqb c sep then EmptyString :: split sep rest
      else match split sep rest with
           | [] => [String c EmptyString]
           | field :: fields => String c field :: fields
           end
  end.

(** The loop of [checkAdminUserStatus] over [user.allPermissions].  An
    entry without a second field makes [permType[1].split] throw. *)
Fixpoint scanPermissions (entries : list string) : Outcome bool :=
  match entries with
  | [] => Returned false
  | entry :: rest =>
      let permType := split ":"%char entry in
      if negb (bool_decide (permType !! 0%nat = Some "camera")) then scanPermissions rest
      else
        match permType !! 1%nat with
        | None => Thrown (TypeError "Cannot read property 'split' of undefined")
        | Some capabilities =>
            let permissions := split ","%char capabilities in
            if bool_decide ("write" ∈ permissions) then Returned true
            else scanPermissions rest
        end
  end.

Definition checkAdminUserStatus (firstRun : bool) : M bool :=
  s ← get;
  match bootstrap s with
  | None => ret false
  | Some b =>
      match users b with
      | None => ret false
      | Some allUsers =>
          let oldAdminStatus := isAdminUser s in
          let user := find (fun x => String.eqb (user_id x) (authUserId b)) allUsers in
          match user ≫= allPermissions with
          | None => ret false
          | Some entries =>
              newAdminStatus ← (fun s => (scanPermissions entries, s));
              modify (set_isAdminUser newAdminStatus);;
              s ← get;
              (if firstRun && negb (isAdminUser s) then log MsgAdminRequired
               else if negb firstRun && negb (bool_decide (oldAdminStatus = isAdminUser s))
               then log (MsgRoleChange (isAdminUser s))
               else ret tt);;
              ret true
          end
      end
  end.

(** [new WebSocket(url, ...)]: the constructor throws, or the new socket is
    added to the sockets the client has made. *)
Definition newWebSocket (url : string) : M (option nat) :=
  fun s =>
    if socket world (length (sockets s)) url then
      (Returned (Some (length (sockets s))),
       set_sockets (sockets s ++ [mkWebSocket false None None None]) s)
    else (Returned None, s).

(** The handlers that [launchEventListener] registers on the socket are
    [dispatch], below.  A [new] expression never yields a false value, so
    the branch on [!ws] is not taken. *)
Definition launchEventListener : M bool :=
  login ← loginProtect;
  if negb login then ret false else
  s ← get;
  if bool_decide (is_Some (eventListener s)) then ret true else
  debug (MsgSystemListener (systemEventsUrl s));;
  ws ← newWebSocket (systemEventsUrl s);
  match ws with
  | Some w =>
      modify (set_eventListener (Some w));;
      log MsgEventsConnected
  | None => log MsgEventsConnectError
  end;;
  ret true.

Definition bootstrapProtect : M bool :=
  login ← loginProtect;
  if negb login then ret false else
  s ← get;
  response ← fetch (bootstrapUrl s) GET NoBody true true;
  if negb (isOk response) then
    log MsgNoNvrConfiguration;;
    modify clearLoginCredentials;;
    ret false
  else
  data ← match response ≫= body with
          | Some j => ret (Some j)
          | None => log MsgUnparsable;; ret None
          end;
  match data with
  | Some (JBootstrap b) =>
      if negb (bool_decide (is_Some (cameras b))) then
        log MsgNoCameras;;
        modify clearLoginCredentials;;
        ret false
      else
        s ← get;
        let firstRun := negb (bool_decide (is_Some (bootstrap s))) in
        modify (set_bootstrap (Some b));;
        (if firstRun then
           match nvr b with
           | Some n => log (MsgConnected (nvr_host n) (nvr_mac n))
           | None => throw (TypeError "Cannot read property 'host' of undefined")
           end
         else ret tt);;
        debug MsgInspectBootstrap;;
        checkAdminUserStatus firstRun;;
        s ← get;
        if isUnifiOs s then launchEventListener else ret true
  | _ =>
      log MsgNoCameras;;
      modify clearLoginCredentials;;
      ret false
  end.

(** [for (const x of l) body]. *)
Fixpoint forOf {A} (l : list A) (body : A -> M unit) : M unit :=
  match l with
  | [] => ret tt
  | x :: rest => body x;; forOf rest body
  end.

(** [l?.some(x => x.mac === device.mac)]. *)
Definition knows (l : option (list ProtectCameraConfig)) (device : ProtectCameraConfig) : bool :=
  match l with
  | Some devices => existsb (fun x => String.eqb (mac x) (mac device)) devices
  | None => false
  end.

Definition refreshDevices : M bool :=
  refreshed ← bootstrapProtect;
  if negb refreshed then ret false else
  debug MsgInspectBootstrap;;
  s ← get;
  match bootstrap s with
  | None => throw (TypeError "Cannot read property 'cameras' of null")
  | Some b =>
      let newDeviceList := cameras b in
      match newDeviceList with
      | Some devices =>
          forOf devices (fun newDevice =>
            s ← get;
            if knows (Cameras s) newDevice then ret tt
            else if negb (isManaged newDevice) then ret tt
            else log (MsgDiscovered newDevice);; debug (MsgInspectDevice newDevice))
      | None => ret tt
      end;;
      s ← get;
      match Cameras s with
      | Some devices =>
          forOf devices (fun existingDevice =>
            if knows newDeviceList existingDevice then ret tt
            else debug (MsgRemoval existingDevice);; debug (MsgInspectDevice existingDevice))
      | None => ret tt
      end;;
      modify (set_Cameras newDeviceList);;
      ret true
  end.

(** [camera.channels?.some(channel => !channel.isRtspEnabled)]; [None] is
    undefined. *)
Definition someChannelDisabled (camera : ProtectCameraConfig) : option bool :=
  existsb (fun channel => negb (isRtspEnabled channel)) <$> channels camera.

(** [isAllRtspConfigured]: [None] is undefined.  An undefined answer of the
    inner [some] counts as false for the outer one. *)
Definition isAllRtspConfigured (s : ProtectApi) : option bool :=
  existsb (fun camera => default false (someChannelDisabled camera))
    <$> (bootstrap s ≫= cameras).

Definition enableRtsp (device : ProtectCameraConfig) : M Json :=
  login ← loginProtect;
  if negb login then ret JNull else
  s ← get;
  if negb (isAdminUser s) then ret JNull else
  if negb (String.eqb (modelKey device) "camera") then ret JNull else
  if negb (default false (someChannelDisabled device)) then ret (JCamera device) else
  let enabled :=
    map (fun channel => Channel (channel_id channel) true) (default [] (channels device)) in
  let device :=
    Camera (id device) (mac device) (modelKey device) (name device) (host device)
      (type device) (isManaged device) (Some enabled) in
  response ← fetch (camerasUrl s +:+ "/" +:+ id device) PATCH (ChannelsBody enabled) true false;
  if negb (isOk response) then
    modify (fun s => set_apiErrorCount (apiErrorCount s + 1) s);;
    match response with
    | None => throw (TypeError "Cannot read property 'status' of null")
    | Some r =>
        (if status r =? 403 then log (MsgRtspForbidden device)
         else log (MsgRtspFailed device (status r)));;
        ret (JCamera device)
    end
  else
    modify (set_apiErrorCount 0);;
    t ← dateNow;
    modify (set_apiLastSuccess t);;
    match response ≫= body with
    | Some j => ret j
    | None => throw SyntaxError
    end.

Definition updateCamera (device : option ProtectCameraConfig)
    (payload : ProtectCameraConfigPayload) : M Json :=
  match device with
  | None => ret JNull
  | Some device =>
      login ← loginProtect;
      if negb login then ret JNull else
      s ← get;
      if negb (isAdminUser s) then ret JNull else
      debug (MsgPayload device payload);;
      response ← fetch (camerasUrl s +:+ "/" +:+ id device) PATCH (PayloadBody payload) true true;
      if negb (isOk response) then
        match response with
        | None => throw (TypeError "Cannot read property 'status' of null")
        | Some r => log (MsgConfigureFailed device (status r));; ret JNull
        end
      else
        match response ≫= body with
        | Some j => ret j
        | None => throw SyntaxError
        end
  end.

(** ** The realtime event listener

    Timers and socket events arrive from outside, between the client's
    operations.  [setTimeout] and [clearTimeout] act on [timers]; an event
    of a socket runs the handler that [launchEventListener] registered for
    it; a timer that is due runs its callback. *)

Definition clearTimeout (handle : option nat) (s : ProtectApi) : ProtectApi :=
  match handle with
  | Some i => set_timers (alter (fun t => mkTimer (due t) false (timer_self t)) i (timers s)) s
  | None => s
  end.

(** [this.eventHeartbeatTimer], for the two kinds of [this]. *)
Definition heartbeatTimerOf (this : Obj) (s : ProtectApi) : option nat :=
  match this with
  | ObjApi => eventHeartbeatTimer s
  | ObjSocket ws => sockets s !! ws ≫= ws_eventHeartbeatTimer
  end.

Definition setHeartbeatTimerOf (this : Obj) (handle : option nat) (s : ProtectApi) : ProtectApi :=
  match this with
  | ObjApi => set_eventHeartbeatTimer handle s
  | ObjSocket ws =>
      set_sockets
        (alter (fun o => mkWebSocket (terminated o) handle (ws_eventListener o)
                           (ws_eventListenerConfigured o)) ws (sockets s)) s
  end.

(** [heartbeatEventListener], called at time [now] with the given [this].
    The timer it sets captures [self = this]. *)
Definition heartbeatEventListener (this : Obj) (now : Z) (s : ProtectApi) : ProtectApi :=
  let s := clearTimeout (heartbeatTimerOf this s) s in
  let handle := length (timers s) in
  let s :=
    set_timers
      (timers s ++ [mkTimer (now + PROTECT_EVENTS_HEARTBEAT_INTERVAL cfg * 1000) true this]) s in
  setHeartbeatTimerOf this (Some handle) s.

(** The callback of the heartbeat timer:
    [self.eventListener?.terminate(); self.eventListener = null;
     self.eventListenerConfigured = false]. *)
Definition heartbeatExpired (self : Obj) (s : ProtectApi) : ProtectApi :=
  match self with
  | ObjApi =>
      let s := terminateListener s in
      let s := set_eventListener None s in
      set_eventListenerConfigured false s
  | ObjSocket ws =>
      let s :=
        match sockets s !! ws ≫= ws_eventListener with
        | Some (Some other) => terminate other s
        | _ => s
        end in
      set_sockets
        (alter (fun o => mkWebSocket (terminated o) (ws_eventHeartbeatTimer o)
                           (Some None) (Some false)) ws (sockets s)) s
  end.

Inductive SocketEvent :=
| OnOpen
| OnPing
| OnClose
| OnError (message : string).

(** The handlers registered in [launchEventListener].  [open] and [ping]
    have the method [heartbeatEventListener] itself as their listener, and
    an event emitter calls a listener with [this] set to the emitter: the
    socket.  [close] and [error] have arrow functions, whose [this] is the
    client. *)
Definition dispatch (ws : nat) (e : SocketEvent) (now : Z) (s : ProtectApi) : ProtectApi :=
  match e with
  | OnOpen | OnPing => heartbeatEventListener (ObjSocket ws) now s
  | OnClose => clearTimeout (eventHeartbeatTimer s) s
  | OnError message =>
      let s :=
        if String.eqb message "WebSocket was closed before the connection was established"
        then s
        else set_output (output s ++ [Log (MsgSocketError message)]) s in
      let s := terminateListener s in
      let s := set_eventListener None s in
      set_eventListenerConfigured false s
  end.

(** The timers that are pending and due at [now] run, in the order in
    which they were set. *)
Definition fireTimer (now : Z) (i : nat) (s : ProtectApi) : ProtectApi :=
  match timers s !! i with
  | Some t =>
      if pending t && (due t <=? now) then
        heartbeatExpired (timer_self t)
          (set_timers (alter (fun t => mkTimer (due t) false (timer_self t)) i (timers s)) s)
      else s
  | None => s
  end.

Definition elapse (now : Z) (s : ProtectApi) : ProtectApi :=
  foldl (fun s i => fireTimer now i s) s (seq 0 (length (timers s))).

End Client.

(** The constructor. *)
Definition newProtectApi (nvrAddress username password : string) : ProtectApi :=
  clearLoginCredentials
    (mkProtectApi 0 0 None None None None false ∅ (mkAgent false) false false false 0
       nvrAddress username password 0 [] [] [] []).

(** ** Where the heartbeat timers point

    Every timer's callback has captured a socket as its [self], and no
    socket holds another socket in the [eventListener] property that such
    a callback may have created on it.  This is so in a new client, where
    there are no timers and no sockets. *)

Definition heartbeatsOnSockets (s : ProtectApi) : Prop :=
  Forall (fun t => timer_self t <> ObjApi) (timers s) /\
  Forall (fun o => forall other, ws_eventListener o <> Some (Some other)) (sockets s).

(** ** The states a client can be in

    A client starts from its constructor.  From then on its public
    operations are called, in whatever world, the sockets it has made emit
    events, and time passes. *)

Inductive step (cfg : Settings) : ProtectApi -> ProtectApi -> Prop :=
| step_refreshDevices world s :
    step cfg s (snd (refreshDevices cfg world s))
| step_enableRtsp world device s :
    step cfg s (snd (enableRtsp cfg world device s))
| step_updateCamera world device payload s :
    step cfg s (snd (updateCamera cfg world device payload s))
| step_clearLoginCredentials s :
    step cfg s (clearLoginCredentials s)
| step_event ws e now s :
    step cfg s (dispatch cfg ws e now s)
| step_elapse now s :
    step cfg s (elapse now s).

Inductive reachable (cfg : Settings) : ProtectApi -> Prop :=
| reachable_new nvrAddress username password :
    reachable cfg (newProtectApi nvrAddress username password)
| reachable_step s s' :
    reachable cfg s -> step cfg s s' -> reachable cfg s'.

(** A method keeps the heartbeat timers on the sockets: run in a state
    where they are, it ends in one where they are, whether it returns or
    throws. *)
Definition keeps {A} (m : M A) : Prop :=
  forall s r s', heartbeatsOnSockets s -> m s = (r, s') -> heartbeatsOnSockets s'.

(** ** Counting authentication round trips

    The only request that carries the credentials is the POST of
    [loginProtect] to the authentication URL. *)

Definition isLogin (rq : Request) : bool :=
  match request_body rq with
  | LoginBody _ _ => true
  | _ => false
  end.

Definition logins (sent : list Request) : nat := length (List.filter isLogin sent).

(** The credentials that the answer to the login must carry for
    [loginProtect] to accept it: a CSRF token and a cookie, on a session
    whose headers hold a CSRF token, or an authorization token. *)
Definition carriesCredentials (held : Headers) (response : Response) : bool :=
  truthy (response_headers response !! "X-CSRF-Token") &&
  truthy (response_headers response !! "Set-Cookie") &&
  has held "X-CSRF-Token"
  || truthy (response_headers response !! "Authorization").

(** ** What the two loops of [refreshDevices] log

    For one device of the new list, and for one device of the old list. *)

Definition discoveryNotes (known : option (list ProtectCameraConfig))
    (newDevice : ProtectCameraConfig) : list Output :=
  if knows known newDevice then []
  else if negb (isManaged newDevice) then []
  else [Log (MsgDiscovered newDevice); Debug (MsgInspectDevice newDevice)].

Definition removalNotes (newDeviceList : option (list ProtectCameraConfig))
    (existingDevice : ProtectCameraConfig) : list Output :=
  if knows newDeviceList existingDevice then []
  else [Debug (MsgRemoval existingDevice); Debug (MsgInspectDevice existingDevice)].

(** ** What a bootstrap response yields

    The snapshot that [bootstrapProtect] takes from the answer to its
    request: none when there is no OK response, when the body does not
    parse, or when the body has no camera list. *)

Definition snapshotOf (response : option Response) : option ProtectNvrBootstrap :=
  match response with
  | Some r =>
      if ok r then
        match body r with
        | Some (JBootstrap b) =>
            match cameras b with
            | Some _ => Some b
            | None => None
            end
        | _ => None
        end
      else None
  | None => None
  end.

(** ** Concrete sessions

    Settings, controllers and sessions on which the operations are run in
    the examples below. *)

Definition sampleSettings : Settings := mkSettings 10 300 10 1800.

Definition answer (code : Z) (h : Headers) (b : option Json) : NetResult :=
  NetResponse (mkResponse code EmptyString h b).


Definition root : string := "https://nvr".

(** A FamilyA controller, seen from time [t0] on: the root page carries a
    CSRF token, the login answers with a cookie and a rotated token, the
    bootstrap URL answers [inventory] and a PATCH is answered [patched]. *)
Definition unifiOs (t0 : Z) (inventory patched : NetResult) : World :=
  mkWorld (fun n => t0 + Z.of_nat n)
    (fun _ rq =>
       if String.eqb (request_url rq) root then
         answer 200 (<["X-CSRF-Token" := "token"]> ∅) None
       else if String.eqb (request_url rq) (root +:+ "/api/auth/login") then
         answer 200 (<["X-CSRF-Token" := "rotated"]> (<["Set-Cookie" := "TOKEN=abc"]> ∅)) None
       else if String.eqb (request_url rq) (root +:+ "/proxy/protect/api/bootstrap") then
         inventory
       else match request_method rq with
            | PATCH => patched
            | _ => answer 404 ∅ None
            end)
    (fun _ _ => true).

Definition cameraA : ProtectCameraConfig :=
  Camera "a" "AA:AA" "camera" "Porch" "10.0.0.2" "UVC G3" true (Some [Channel 0 true]).
Definition cameraB : ProtectCameraConfig :=
  Camera "b" "BB:BB" "camera" "Garage" "10.0.0.3" "UVC G3"
    true (Some [Channel 0 true; Channel 1 false]).
Definition cameraC : ProtectCameraConfig :=
  Camera "c" "CC:CC" "camera" "Garden" "10.0.0.4" "UVC G4" true (Some [Channel 0 true]).

Definition controllerNvr : ProtectNvrConfig := Nvr "Home" "UDM-Pro" "10.0.0.1" "00:00".

(** The user of the client, with the right to write cameras. *)
Definition administrator : ProtectNvrUserConfig :=
  User "u1" (Some ["nvr:read:all"; "camera:read,write:all"]).

Definition inventoryAB : ProtectNvrBootstrap :=
  Bootstrap "u1" (Some [cameraA; cameraB]) (Some [administrator]) (Some controllerNvr).
Definition inventoryBC : ProtectNvrBootstrap :=
  Bootstrap "u1" (Some [cameraB; cameraC]) (Some [administrator]) (Some controllerNvr).
(** A snapshot in which the record of the client's user is missing. *)
Definition inventoryNoUser : ProtectNvrBootstrap :=
  Bootstrap "u1" (Some [cameraA; cameraB]) (Some []) (Some controllerNvr).

Definition serves (b : ProtectNvrBootstrap) : NetResult := answer 200 ∅ (Some (JBootstrap b)).
Definition serverError : NetResult := answer 500 ∅ None.

Definition unifiOsController : World := unifiOs 1000 (serves inventoryAB) serverError.

(** A FamilyB controller, seen from time [t0] on: no token on the root
    page, port 7443 answers and the login there hands out a bearer token. *)
Definition cloudKey (t0 : Z) : World :=
  mkWorld (fun n => t0 + Z.of_nat n)
    (fun _ rq =>
       if String.eqb (request_url rq) root then answer 200 ∅ None
       else if String.eqb (request_url rq) (root +:+ ":7443/") then answer 200 ∅ None
       else if String.eqb (request_url rq) (root +:+ ":7443/api/auth") then
         answer 200 (<["Authorization" := "bearer-token"]> ∅) None
       else answer 404 ∅ None)
    (fun _ _ => true).

Definition cloudKeyController : World := cloudKey 1000.

Definition freshClient : ProtectApi := newProtectApi "nvr" "user" "secret".

(** The client after its first synchronisation with [unifiOsController]:
    logged in, administrator, cameras A and B, the event listener up. *)
Definition syncedClient : ProtectApi :=
  snd (refreshDevices sampleSettings unifiOsController freshClient).

(** The same controller a second later, with camera A gone and camera C
    new; and with the bootstrap URL out of order. *)
Definition changedController : World := unifiOs 2000 (serves inventoryBC) serverError.
Definition outage : World := unifiOs 2000 serverError serverError.

(** The same controller when the record of the client's user is gone from
    the snapshot, when it resets the connection of a PATCH, and when it
    answers a PATCH with a body that does not parse. *)
Definition demotedController : World := unifiOs 2000 (serves inventoryNoUser) serverError.
Definition resettingController : World :=
  unifiOs 2000 (serves inventoryAB) (NetError "ECONNRESET").
Definition garbledController : World :=
  unifiOs 2000 (serves inventoryAB) (answer 200 ∅ None).

(** A controller whose snapshot has a permission string without a second
    field. *)
Definition inventoryOddPermission : ProtectNvrBootstrap :=
  Bootstrap "u1" (Some [cameraA]) (Some [User "u1" (Some ["camera"])]) (Some controllerNvr).
Definition oddController : World := unifiOs 1000 (serves inventoryOddPermission) serverError.

(** The client after a login on [unifiOsController], and the state in
    which [loginProtect] hands it to [acquireToken] when the refresh
    interval is over: logged out, fresh headers, the family flag still
    set. *)
Definition loggedInClient : ProtectApi :=
  snd (loginProtect sampleSettings unifiOsController freshClient).
Definition renewingClient : ProtectApi :=
  set_headers freshHeaders
    (set_loggedIn false (set_ticks (S (ticks loggedInClient)) loggedInClient)).

(** The client after a login on [cloudKeyController]. *)
Definition cloudKeyClient : ProtectApi :=
  snd (loginProtect sampleSettings cloudKeyController freshClient).


(** ** Running the monad in proofs *)

Ltac unfold_m :=
  unfold log, debug in *;
  unfold mbind, M_bind, mret, M_ret, ret, throw, get, modify, dateNow, nodeFetch in *.

(** Case analysis on every test that the run of a method goes through. *)
Ltac split_cases_in H :=
  repeat (cbn in H;
          match type of H with
          | context [if ?c then _ else _] => destruct c eqn:?
          | context [match ?c with _ => _ end] => destruct c eqn:?
          end);
  cbn in H.

(** The same, wherever a test shows up among the hypotheses. *)
Ltac split_cases :=
  repeat (cbn in *;
          match goal with
          | H : context [if ?c then _ else _] |- _ => destruct c eqn:?
          | H : context [match ?c with _ => _ end] |- _ => destruct c eqn:?
          end);
  cbn in *.

(** The run has reached its end: the result and the final state are known. *)
Ltac finish_run H :=
  match type of H with
  | (_, _) = (?r, ?s) => injection H as ? ?; subst r s
  | (_, _) = (_, ?s) => injection H as ? ?; subst s
  end.

(** A method that is known not to throw has not thrown. *)
Ltac no_throw :=
  match goal with
  | X : exists _, Thrown _ = Returned _ |- _ => destruct X; discriminate
  end.

Ltac to_Z_props :=
  rewrite ?Z.leb_le, ?Z.leb_gt, ?Z.eqb_eq, ?Z.eqb_neq, ?Z.ltb_lt, ?Z.ltb_ge in *.

(** ** The transport governor *)

Section Governor.

Context (cfg : Settings) (world : World).

(** What [fetch] leaves alone: it never throws, it touches only the
    governor's two fields, the clock and the logs, and it sends at most the
    one request it was asked to send. *)
Lemma fetch_frame url m b logErrors decodeResponse s r s' :
  fetch cfg world url m b logErrors decodeResponse s = (r, s') ->
  (exists o, r = Returned o) /\
  loggedIn s' = loggedIn s /\ headers s' = headers s /\
  bootstrap s' = bootstrap s /\ Cameras s' = Cameras s /\
  isUnifiOs s' = isUnifiOs s /\ isAdminUser s' = isAdminUser s /\
  loginAge s' = loginAge s /\ httpsAgent s' = httpsAgent s /\
  eventListener s' = eventListener s /\ sockets s' = sockets s /\
  nvrAddress s' = nvrAddress s /\
  (requests s' = requests s \/
   requests s' = requests s ++ [mkRequest url m b (headers s) (httpsAgent s)]).
Proof.
  intros H. unfold fetch in H. unfold_m.
  split_cases_in H; finish_run H; cbn; eauto 20.
Qed.

(** Below the threshold the request goes out. *)
Lemma fetch_below_threshold url m b logErrors decodeResponse s r s' :
  fetch cfg world url m b logErrors decodeResponse s = (r, s') ->
  apiErrorCount s < PROTECT_API_ERROR_LIMIT cfg ->
  requests s' = requests s ++ [mkRequest url m b (headers s) (httpsAgent s)].
Proof.
  intros H Hbelow. unfold fetch in H. unfold_m.
  split_cases_in H; finish_run H; cbn in *; to_Z_props; solve [reflexivity | lia].
Qed.



End Governor.



(** ** Device-type detection *)

Section Detection.

Context (cfg : Settings) (world : World).

#[local] Arguments fetch : simpl never.

(** C7 (code bug).  Detection runs on a session that is not logged in
    and has no token header.  If the probe of the bare address comes back
    OK with a CSRF token, [acquireToken] returns true after that one probe,
    with the family flag set, the token in the headers and the keepalive
    agent installed, on which the next request goes out.  If not, the
    alternate port is probed and [acquireToken] returns whether that probe
    was OK; login state, headers, agent and family flag are then what they
    were, so a failed detection can be run again.  The branch of the
    alternate port does not write the family flag: a detection that
    succeeds there resolves to FamilyB only on a session whose flag was
    clear, and leaves a flag set by an earlier detection set. *)
Theorem acquireToken_detection s probe s1 :
  loggedIn s = false ->
  has (headers s) "X-CSRF-Token" = false ->
  has (headers s) "Authorization" = false ->
  fetch cfg world ("https://" +:+ nvrAddress s) GET NoBody false true s = (Returned probe, s1) ->
  let csrfToken := probe ≫= (fun r => response_headers r !! "X-CSRF-Token") in
  (isOk probe = true -> truthy csrfToken = true ->
     exists s',
       acquireToken cfg world s = (Returned true, s') /\
       isUnifiOs s' = true /\ httpsAgent s' = mkAgent true /\
       headers s' !! "X-CSRF-Token" = csrfToken /\
       requests s' = requests s1 /\
       (forall url m b logErrors decodeResponse r2 s2,
          fetch cfg world url m b logErrors decodeResponse s' = (r2, s2) ->
          forall rq, requests s2 = requests s' ++ [rq] ->
          keepAlive (request_agent rq) = true)) /\
  (isOk probe && truthy csrfToken = false ->
     forall alternate s2,
       fetch cfg world ("https://" +:+ nvrAddress s +:+ ":7443/") GET NoBody false true s1
         = (Returned alternate, s2) ->
       acquireToken cfg world s = (Returned (isOk alternate), s2) /\
       isUnifiOs s2 = isUnifiOs s /\ loggedIn s2 = false /\
       headers s2 = headers s /\ httpsAgent s2 = httpsAgent s).
Proof.
  intros Hlogged Hcsrf Hauth Hprobe csrfToken. split.
  - intros Hok Htoken. eexists. split.
    + unfold acquireToken. unfold_m. cbn.
      rewrite Hlogged, Hcsrf, Hauth. cbn. rewrite Hprobe. cbn.
      fold csrfToken. rewrite Hok, Htoken. cbn. reflexivity.
    + cbn. repeat split.
      * rewrite lookup_insert_eq. subst csrfToken.
        destruct (probe ≫= _) as [[|]|]; cbn in *; congruence.
      * intros url m b le dec r2 s2 Hnext rq Hsent.
        apply fetch_frame in Hnext. cbn in Hnext.
        destruct Hnext as (_ & _ & _ & _ & _ & _ & _ & _ & _ & _ & _ & _ & [Hsame | Hone]).
        -- rewrite Hsame in Hsent. cbn in Hsent.
           apply (f_equal length) in Hsent. rewrite length_app in Hsent. cbn in Hsent. lia.
        -- rewrite Hone in Hsent. cbn in Hsent. apply app_inv_head in Hsent.
           injection Hsent as <-. reflexivity.
  - intros Hnone alternate s2 Halt. split.
    + unfold acquireToken. unfold_m. cbn.
      rewrite Hlogged, Hcsrf, Hauth. cbn. rewrite Hprobe. cbn.
      fold csrfToken. rewrite Hnone. rewrite Halt. cbn.
      destruct (isOk alternate); reflexivity.
    + apply fetch_frame in Hprobe, Halt.
      destruct Hprobe as (_ & Hl1 & Hh1 & _ & _ & Hu1 & _ & _ & Ha1 & _).
      destruct Halt as (_ & Hl2 & Hh2 & _ & _ & Hu2 & _ & _ & Ha2 & _).
      repeat split; congruence.
Qed.

End Detection.

(** On a fresh client both outcomes of the detection are seen: FamilyA on
    [unifiOsController], FamilyB (the flag stays clear) on
    [cloudKeyController]. *)
Lemma acquireToken_detection_witness :
  (exists s', acquireToken sampleSettings unifiOsController freshClient = (Returned true, s') /\
     isUnifiOs s' = true /\ httpsAgent s' = mkAgent true) /\
  (exists s', acquireToken sampleSettings cloudKeyController freshClient = (Returned true, s') /\
     isUnifiOs s' = false).
Proof.
  split.
  - destruct (acquireToken_detection sampleSettings unifiOsController freshClient
                (Some (mkResponse 200 EmptyString (<["X-CSRF-Token" := "token"]> ∅) None))
                (snd (fetch sampleSettings unifiOsController root GET NoBody false true freshClient)))
      as [(s' & Hrun & Hos & Hagent & _) _];
      [reflexivity | reflexivity | reflexivity | vm_compute; reflexivity
      | reflexivity | reflexivity |].
    exists s'. auto.
  - destruct (acquireToken_detection sampleSettings cloudKeyController freshClient
                (Some (mkResponse 200 EmptyString ∅ None))
                (snd (fetch sampleSettings cloudKeyController root GET NoBody false true freshClient)))
      as [_ Halt];
      [reflexivity | reflexivity | reflexivity | vm_compute; reflexivity |].
    destruct (Halt eq_refl (Some (mkResponse 200 EmptyString ∅ None))
                (snd (acquireToken sampleSettings cloudKeyController freshClient)))
      as (Hrun & Hos & _); [vm_compute; reflexivity |].
    eexists. split; [exact Hrun |]. rewrite Hos. reflexivity.
Defined.

(** C7 (the failing input).  On a session whose family flag is still
    set, a detection that finds no token and reaches the alternate port
    succeeds and leaves the flag set: the family is not FamilyB. *)
Lemma acquireToken_stale_family_counterexample :
  ~ (forall s r s',
       loggedIn s = false ->
       has (headers s) "X-CSRF-Token" = false ->
       has (headers s) "Authorization" = false ->
       acquireToken sampleSettings cloudKeyController s = (r, s') ->
       r = Returned true ->
       has (headers s') "X-CSRF-Token" = false ->
       isUnifiOs s' = false).
Proof.
  intros claim.
  pose proof (claim renewingClient _ _ eq_refl eq_refl eq_refl (surjective_pairing _)
                ltac:(vm_compute; reflexivity) ltac:(vm_compute; reflexivity)) as H.
  vm_compute in H. discriminate H.
Qed.

(** The counterexample's session comes up in a run of [loginProtect]: an
    hour after the login, with a controller that shows no token and answers
    on the alternate port, the renewal probes both addresses and then posts
    the credentials to the FamilyA address. *)
Example loginProtect_renewal_keeps_family :
  skipn 2 (map request_url
             (requests (snd (loginProtect sampleSettings (cloudKey 3600000) loggedInClient))))
  = [root; root +:+ ":7443/"; root +:+ "/api/auth/login"].
Proof. vm_compute. reflexivity. Qed.

(** That renewal fails, and so does every later one: the session keeps the
    FamilyA flag and holds no CSRF token, and the controller has no login
    at the FamilyA address.  A new client logs in to the same controller. *)
Example loginProtect_stale_family_stuck :
  let renewal := loginProtect sampleSettings (cloudKey 3600000) loggedInClient in
  fst renewal = Returned false /\
  isUnifiOs (snd renewal) = true /\
  has (headers (snd renewal)) "X-CSRF-Token" = false /\
  fst (loginProtect sampleSettings (cloudKey 7200000) (snd renewal)) = Returned false /\
  fst (loginProtect sampleSettings (cloudKey 3600000) freshClient) = Returned true.
Proof. repeat split; vm_compute; reflexivity. Qed.

(** ** The session *)

Section Session.

Context (cfg : Settings) (world : World).

#[local] Arguments fetch : simpl never.

Lemma logins_snoc sent rq :
  logins (sent ++ [rq]) = (logins sent + (if isLogin rq then 1 else 0))%nat.
Proof.
  unfold logins. rewrite List.filter_app, length_app. cbn.
  destruct (isLogin rq); reflexivity.
Qed.

(** A response comes from the network: the request was sent. *)
Lemma fetch_response_sent url m b logErrors decodeResponse s response s' :
  fetch cfg world url m b logErrors decodeResponse s = (Returned response, s') ->
  isOk response = true ->
  requests s' = requests s ++ [mkRequest url m b (headers s) (httpsAgent s)].
Proof.
  intros H Hok. unfold fetch in H. unfold_m.
  split_cases_in H; try discriminate H; injection H as <- <-;
    solve [reflexivity | discriminate Hok].
Qed.

Lemma fetch_logins url m b logErrors decodeResponse s r s' :
  fetch cfg world url m b logErrors decodeResponse s = (r, s') ->
  (logins (requests s) <= logins (requests s') <= logins (requests s) + 1)%nat /\
  (length (requests s) <= length (requests s'))%nat /\
  (match b with LoginBody _ _ => False | _ => True end ->
   logins (requests s') = logins (requests s)).
Proof.
  intros H. apply fetch_frame in H.
  destruct H as (_ & _ & _ & _ & _ & _ & _ & _ & _ & _ & _ & _ & [-> | ->]).
  - split; [lia |]. split; [lia | reflexivity].
  - rewrite logins_snoc, length_app. unfold isLogin. cbn.
    split; [destruct b; lia |]. split; [lia |].
    destruct b; intros Hb; solve [lia | destruct Hb].
Qed.

(** Detection never throws, sends no credentials and leaves the login
    state, the snapshot and the camera list alone. *)
Lemma acquireToken_frame s r s' :
  acquireToken cfg world s = (r, s') ->
  (exists found, r = Returned found) /\
  loggedIn s' = loggedIn s /\ loginAge s' = loginAge s /\
  bootstrap s' = bootstrap s /\ Cameras s' = Cameras s /\
  isAdminUser s' = isAdminUser s /\ eventListener s' = eventListener s /\
  sockets s' = sockets s /\ nvrAddress s' = nvrAddress s /\
  logins (requests s') = logins (requests s) /\
  (length (requests s) <= length (requests s'))%nat.
Proof.
  intros H. unfold acquireToken in H. unfold_m.
  split_cases_in H; finish_run H; cbn;
    repeat match goal with
           | F : fetch _ _ _ _ _ _ _ _ = _ |- _ =>
               let L := fresh "L" in
               pose proof (fetch_logins _ _ _ _ _ _ _ _ F) as (_ & ? & L);
               specialize (L I); apply fetch_frame in F; destruct_and!
           end;
    try no_throw; repeat split; eauto; try congruence; try lia.
Qed.

#[local] Arguments acquireToken : simpl never.
#[local] Arguments logins : simpl never.

Ltac use_frames :=
  repeat match goal with
         | F : fetch _ _ _ _ _ _ _ _ = (Returned _, _) |- _ =>
             let L := fresh "L" in
             let S := fresh "Sent" in
             pose proof (fetch_response_sent _ _ _ _ _ _ _ _ F) as S;
             pose proof (fetch_logins _ _ _ _ _ _ _ _ F) as (? & ? & L);
             apply fetch_frame in F; destruct_and!
         | F : fetch _ _ _ _ _ _ _ _ = _ |- _ =>
             apply fetch_frame in F; destruct_and!
         | F : acquireToken _ _ _ = _ |- _ =>
             apply acquireToken_frame in F; destruct_and!
         end.

(** The request of an OK response was sent. *)
Ltac was_sent :=
  match goal with
  | S : isOk ?a = true -> _, E : negb (isOk ?a) = false |- _ =>
      apply negb_false_iff in E; specialize (S E)
  end.

(** What a run of [loginProtect] does, by cases. *)
Lemma loginProtect_cases s r s' :
  loginProtect cfg world s = (r, s') ->
  let now := clock world (ticks s) in
  let window := PROTECT_LOGIN_REFRESH_INTERVAL cfg * 1000 in
  (exists b, r = Returned b) /\
  Cameras s' = Cameras s /\ nvrAddress s' = nvrAddress s /\
  (logins (requests s) <= logins (requests s') <= logins (requests s) + 1)%nat /\
  (length (requests s) <= length (requests s'))%nat /\
  (loggedIn s = true -> now <= loginAge s + window ->
     r = Returned true /\ s' = set_ticks (S (ticks s)) s) /\
  (r = Returned true ->
     loggedIn s' = true /\ bootstrap s' = bootstrap s /\
     isAdminUser s' = isAdminUser s /\ eventListener s' = eventListener s /\
     sockets s' = sockets s /\
     (~ (loggedIn s = true /\ now <= loginAge s + window) ->
        loginAge s' = now /\ logins (requests s') = S (logins (requests s)))) /\
  (r = Returned false ->
     loggedIn s' = false /\
     (bootstrap s' = bootstrap s \/ bootstrap s' = None)).
Proof.
  intros H now window. subst now window.
  unfold loginProtect in H. unfold_m.
  split_cases_in H; finish_run H; use_frames;
    unfold clearLoginCredentials, terminateListener in *;
    cbn in *; to_Z_props; try no_throw.
  all: repeat split; intros; try discriminate; try congruence; try lia; eauto.
  all: try (left; congruence).
  all: was_sent;
    match goal with
    | S : requests _ = requests _ ++ [_] |- _ => rewrite S, logins_snoc; cbn; lia
    end.
Qed.

(** Logged in and within the refresh interval: nothing but the clock is
    touched. *)
Lemma loginProtect_fresh s :
  loggedIn s = true ->
  clock world (ticks s) <= loginAge s + PROTECT_LOGIN_REFRESH_INTERVAL cfg * 1000 ->
  loginProtect cfg world s = (Returned true, set_ticks (S (ticks s)) s).
Proof.
  intros Hin Hfresh.
  destruct (loginProtect cfg world s) as [r s'] eqn:Hrun.
  apply loginProtect_cases in Hrun.
  destruct Hrun as (_ & _ & _ & _ & _ & Hcase & _).
  destruct (Hcase Hin Hfresh) as [-> ->]. reflexivity.
Qed.

(** After the refresh interval, and with the governor below its
    threshold, a call of [loginProtect] reaches the network. *)
Lemma loginProtect_renewal_attempt s r s' :
  loginProtect cfg world s = (r, s') ->
  loginAge s + PROTECT_LOGIN_REFRESH_INTERVAL cfg * 1000 < clock world (ticks s) ->
  apiErrorCount s < PROTECT_API_ERROR_LIMIT cfg ->
  (length (requests s) < length (requests s'))%nat.
Proof.
  intros H Hstale Hbelow.
  unfold loginProtect in H. unfold_m. cbn in H.
  apply Z.ltb_lt in Hstale. rewrite Hstale in H. cbn in H.
  unfold acquireToken in H. unfold_m. cbn in H.
  change (has freshHeaders "X-CSRF-Token") with false in H.
  change (has freshHeaders "Authorization") with false in H. cbn in H.
  destruct (fetch cfg world ("https://" +:+ nvrAddress s) GET NoBody false true _)
    as [probe s1] eqn:Hprobe.
  apply fetch_below_threshold in Hprobe; [| exact Hbelow]. cbn in Hprobe, H.
  assert (length (requests s) < length (requests s1))%nat as Hgrown
    by (rewrite Hprobe, length_app; cbn; lia).
  clear Hprobe.
  destruct probe as [probe | e];
  split_cases;
    repeat match goal with
           | X : (_, _) = (_, _) |- _ => injection X as ? ?; subst
           end;
    use_frames; unfold clearLoginCredentials, terminateListener in *; cbn in *;
    solve [no_throw | lia].
Qed.

(** [fetch] leaves the credentials of the client alone. *)
Lemma fetch_identity url m b logErrors decodeResponse s r s' :
  fetch cfg world url m b logErrors decodeResponse s = (r, s') ->
  username s' = username s /\ password s' = password s.
Proof.
  intros H. unfold fetch in H. unfold_m.
  split_cases_in H; finish_run H; cbn; auto.
Qed.

(** Below the threshold, what a decoding [fetch] returns is decided by the
    answer of the network to the request: the response if it is an OK one,
    and null otherwise. *)
Lemma fetch_decoded_answer url m b logErrors s r s' :
  fetch cfg world url m b logErrors true s = (r, s') ->
  apiErrorCount s < PROTECT_API_ERROR_LIMIT cfg ->
  r = Returned
        match network world (length (requests s))
                (mkRequest url m b (headers s) (httpsAgent s)) with
        | NetResponse response => if ok response then Some response else None
        | NetError _ => None
        end.
Proof.
  intros H Hbelow. unfold fetch in H. unfold_m.
  split_cases_in H; finish_run H; cbn in *; to_Z_props; try lia;
    repeat match goal with
           | E : network _ _ _ = _ |- _ => rewrite E; clear E
           end;
    unfold ok in *;
    repeat match goal with
           | E : status _ = _ |- _ => rewrite E in *; clear E
           end;
    cbn in *; try reflexivity; try discriminate;
    repeat match goal with
           | E : negb _ = true |- _ => apply negb_true_iff in E; rewrite E
           | E : negb _ = false |- _ => apply negb_false_iff in E; rewrite E
           end;
    reflexivity.
Qed.

(** A decoding [fetch] that hands back a response has reset the count. *)
Lemma fetch_decoded_resets url m b logErrors s response s' :
  fetch cfg world url m b logErrors true s = (Returned (Some response), s') ->
  apiErrorCount s' = 0.
Proof.
  intros H. unfold fetch in H. unfold_m.
  split_cases_in H; try discriminate H; injection H as _ <-; reflexivity.
Qed.


(** Detection leaves the credentials of the client alone. *)
Lemma acquireToken_identity s r s' :
  acquireToken cfg world s = (r, s') ->
  username s' = username s /\ password s' = password s.
Proof.
  intros H. unfold acquireToken in H. unfold_m.
  split_cases_in H; finish_run H; cbn;
    repeat match goal with
           | F : fetch _ _ _ _ _ _ _ _ = _ |- _ => apply fetch_identity in F; destruct F
           end;
    split; congruence.
Qed.

(** A detection that had to probe and has succeeded leaves the governor's
    count at zero: its last probe was answered. *)
Lemma acquireToken_probed_count s s' :
  loggedIn s = false ->
  has (headers s) "X-CSRF-Token" = false ->
  has (headers s) "Authorization" = false ->
  acquireToken cfg world s = (Returned true, s') ->
  apiErrorCount s' = 0.
Proof.
  intros Hlogged Hcsrf Hauth H. unfold acquireToken in H. unfold_m. cbn in H.
  rewrite Hlogged, Hcsrf, Hauth in H.
  split_cases_in H; try discriminate H; injection H as <-; cbn;
    repeat match goal with
           | E : isOk ?o = true |- _ => is_var o; destruct o; [| discriminate E]
           | E : isOk ?o && _ = true |- _ => is_var o; destruct o; [| discriminate E]
           end;
    match goal with
    | F : fetch _ _ _ _ _ _ _ ?t = (Returned (Some _), ?u) |- apiErrorCount ?u = 0 =>
        exact (fetch_decoded_resets _ _ _ _ _ _ _ F)
    end.
Qed.

(** After the refresh interval [loginProtect] starts over: it forgets the
    login and the headers and runs the detection.  When that fails, the
    call fails there.  When it succeeds, the credentials are posted to the
    authentication URL, and the call returns true exactly when the answer
    is an OK one that carries credentials. *)
Lemma loginProtect_renewal_posts s found s1 :
  let now := clock world (ticks s) in
  let renewing := set_headers freshHeaders (set_loggedIn false (set_ticks (S (ticks s)) s)) in
  loginAge s + PROTECT_LOGIN_REFRESH_INTERVAL cfg * 1000 < now ->
  0 < PROTECT_API_ERROR_LIMIT cfg ->
  acquireToken cfg world renewing = (Returned found, s1) ->
  if found then
    let rq := mkRequest (authUrl s1) POST (LoginBody (username s) (password s))
                (headers s1) (httpsAgent s1) in
    exists accepted s',
      loginProtect cfg world s = (Returned accepted, s') /\
      requests s' = requests s1 ++ [rq] /\
      logins (requests s') = S (logins (requests s)) /\
      loggedIn s' = accepted /\
      (accepted = true ->
       has (headers s') "Cookie" || has (headers s') "Authorization" = true) /\
      (accepted = true <->
       exists response,
         network world (length (requests s1)) rq = NetResponse response /\
         ok response = true /\ carriesCredentials (headers s1) response = true)
  else loginProtect cfg world s = (Returned false, s1).
Proof.
  intros now renewing Hstale Hlimit Hacq.
  pose proof (acquireToken_identity _ _ _ Hacq) as [Huser Hpass].
  pose proof (acquireToken_frame _ _ _ Hacq)
    as (_ & Hlogged & _ & _ & _ & _ & _ & _ & _ & Hlogins & _).
  assert (found = true -> apiErrorCount s1 = 0) as Hcount.
  { intros ->. now apply (acquireToken_probed_count renewing). }
  subst renewing. cbn in Huser, Hpass, Hlogged, Hlogins.
  unfold loginProtect. unfold_m. cbn.
  apply Z.ltb_lt in Hstale. subst now. rewrite Hstale. cbn.
  cbn in Hacq. rewrite Hacq. cbn.
  destruct found; cbn; [| reflexivity].
  rewrite Huser, Hpass.
  specialize (Hcount eq_refl).
  destruct (fetch cfg world (authUrl s1) POST (LoginBody (username s) (password s)) true true s1)
    as [r2 s2] eqn:Hpost.
  pose proof (fetch_decoded_answer _ _ _ _ _ _ _ Hpost ltac:(lia)) as Hanswer.
  pose proof (fetch_below_threshold _ _ _ _ _ _ _ _ _ _ Hpost ltac:(lia)) as Hsent.
  pose proof (fetch_frame _ _ _ _ _ _ _ _ _ _ Hpost) as (_ & Hout & Hheaders & _).
  assert (logins (requests s2) = S (logins (requests s))) as Hposted.
  { rewrite Hsent, logins_snoc. cbn. lia. }
  assert (loggedIn s2 = false) as Hrejected by congruence.
  clear Hpost. subst r2.
  destruct (network world (length (requests s1)) _) as [code | response] eqn:Hnet; cbn.
  - exists false, s2. repeat split; try assumption; try discriminate.
    intros (response & Habs & _). discriminate Habs.
  - destruct (ok response) eqn:Hok; cbn.
    + rewrite Hok. cbn. unfold carriesCredentials. rewrite Hheaders.
      destruct (truthy (response_headers response !! "X-CSRF-Token") &&
                truthy (response_headers response !! "Set-Cookie") &&
                has (headers s1) "X-CSRF-Token") eqn:Hfamily; cbn.
      * eexists true, _. split; [reflexivity |].
        cbn [requests loggedIn headers set_headers set_loginAge set_loggedIn].
        repeat split; try assumption.
        -- intros _. apply orb_true_iff. left. unfold has.
           apply bool_decide_eq_true.
           rewrite lookup_insert_ne by discriminate. rewrite lookup_insert_eq. eauto.
        -- intros _. exists response. rewrite Hfamily. auto.
      * destruct (truthy (response_headers response !! "Authorization")) eqn:Hbearer; cbn.
        -- eexists true, _. split; [reflexivity |].
           cbn [requests loggedIn headers set_headers set_loginAge set_loggedIn].
           repeat split; try assumption.
           ++ intros _. apply orb_true_iff. right. unfold has.
              apply bool_decide_eq_true. rewrite lookup_insert_eq. eauto.
           ++ intros _. exists response. rewrite Hfamily, Hbearer. auto.
        -- eexists false, _. split; [reflexivity |].
           unfold clearLoginCredentials, terminateListener. cbn.
           repeat split; try assumption; try discriminate.
           intros (response' & [= <-] & _ & Habs).
           rewrite Hfamily, Hbearer in Habs. discriminate Habs.
    + exists false, s2. repeat split; try assumption; try discriminate.
      intros (response' & [= <-] & Habs & _). rewrite Hok in Habs. discriminate Habs.
Qed.

(** C3.  While the session is logged in and the refresh interval since
    the last login has not elapsed, [loginProtect] returns true without
    sending anything: but for the clock having been read, the state is the
    same.  So of two calls that both fall into the interval the second
    sends nothing, and the two together post the credentials once if the
    first one had to log in and not at all otherwise.  After the refresh
    interval the call does not return true unless it has posted the
    credentials anew, whatever the session was before, and with the governor
    below its threshold it reaches the network.  More precisely, after the
    refresh interval the call forgets the login and the headers and runs
    the detection, which returns; if the detection fails the call returns
    false there, and if it succeeds the call posts the client's username
    and password to the authentication URL, as the one request after those
    of the detection, and returns true exactly when the network answers
    that request with an OK response that carries credentials (the
    threshold of the governor being positive); the session is then logged
    in and holds a cookie or an authorization header, and otherwise it is
    not logged in. *)
Theorem loginProtect_idempotent_renewal s :
  let now := clock world (ticks s) in
  let window := PROTECT_LOGIN_REFRESH_INTERVAL cfg * 1000 in
  (loggedIn s = true -> now <= loginAge s + window ->
     loginProtect cfg world s = (Returned true, set_ticks (S (ticks s)) s)) /\
  (forall s1,
     loginProtect cfg world s = (Returned true, s1) ->
     clock world (ticks s1) <= loginAge s1 + window ->
     loginProtect cfg world s1 = (Returned true, set_ticks (S (ticks s1)) s1) /\
     logins (requests s1) =
       (logins (requests s) +
        (if loggedIn s && (now <=? loginAge s + window)%Z then 0 else 1))%nat) /\
  (loginAge s + window < now ->
     forall r s',
       loginProtect cfg world s = (r, s') ->
       (r = Returned true ->
          logins (requests s') = S (logins (requests s)) /\
          loginAge s' = now /\ loggedIn s' = true) /\
       (apiErrorCount s < PROTECT_API_ERROR_LIMIT cfg ->
          (length (requests s) < length (requests s'))%nat)) /\
  (loginAge s + window < now -> 0 < PROTECT_API_ERROR_LIMIT cfg ->
     let renewing :=
       set_headers freshHeaders (set_loggedIn false (set_ticks (S (ticks s)) s)) in
     exists found s1,
       acquireToken cfg world renewing = (Returned found, s1) /\
       if found then
         let rq := mkRequest (authUrl s1) POST (LoginBody (username s) (password s))
                     (headers s1) (httpsAgent s1) in
         exists accepted s',
           loginProtect cfg world s = (Returned accepted, s') /\
           requests s' = requests s1 ++ [rq] /\
           logins (requests s') = S (logins (requests s)) /\
           loggedIn s' = accepted /\
           (accepted = true ->
            has (headers s') "Cookie" || has (headers s') "Authorization" = true) /\
           (accepted = true <->
            exists response,
              network world (length (requests s1)) rq = NetResponse response /\
              ok response = true /\ carriesCredentials (headers s1) response = true)
       else loginProtect cfg world s = (Returned false, s1)).
Proof.
  intros now window.
  pose proof loginProtect_fresh as Hnoop. fold window in Hnoop.
  split; [apply Hnoop |]. split; [| split].
  - intros s1 Hrun Hsecond.
    pose proof (loginProtect_cases _ _ _ Hrun) as (_ & _ & _ & _ & _ & Hcase & Htrue & _).
    destruct (Htrue eq_refl) as (Hin & _ & _ & _ & _ & Hposted).
    split; [apply Hnoop; assumption |].
    destruct (loggedIn s) eqn:Hs; cbn.
    + destruct (now <=? loginAge s + window) eqn:Hw; to_Z_props.
      * destruct (Hcase eq_refl Hw) as [_ ->]. cbn. lia.
      * destruct Hposted as [_ ->]; [| lia]. intros [_ Hle]. fold now window in Hle. lia.
    + destruct Hposted as [_ ->]; [| lia]. intros [Habs _]. discriminate Habs.
  - intros Hstale r s' Hrun. split.
    + intros ->.
      pose proof (loginProtect_cases _ _ _ Hrun) as (_ & _ & _ & _ & _ & _ & Htrue & _).
      destruct (Htrue eq_refl) as (Hin & _ & _ & _ & _ & Hposted).
      destruct Hposted as [Hage Hcount]; [| auto].
      intros [_ Hle]. fold now window in Hle. lia.
    + intros Hbelow. eapply loginProtect_renewal_attempt; eassumption.
  - intros Hstale Hlimit renewing.
    destruct (acquireToken cfg world renewing) as [probed s1] eqn:Hacq.
    pose proof (acquireToken_frame _ _ _ Hacq) as [[found ->] _].
    exists found, s1. split; [reflexivity |].
    exact (loginProtect_renewal_posts s found s1 Hstale Hlimit Hacq).
Qed.

End Session.

(** A first login posts the credentials once and a second call right
    after it sends nothing; an hour later the login is renewed.  So is the
    login of [cloudKeyClient], an hour later: the renewal posts the
    credentials to the authentication URL and returns true. *)
Lemma loginProtect_idempotent_renewal_witness :
  let first := loginProtect sampleSettings unifiOsController freshClient in
  let second := loginProtect sampleSettings unifiOsController (snd first) in
  let later := unifiOs 3600000 (serves inventoryAB) serverError in
  (fst second = Returned true /\ requests (snd second) = requests (snd first) /\
   logins (requests (snd second)) = 1%nat) /\
  logins (requests (snd (loginProtect sampleSettings later (snd first)))) = 2%nat /\
  (let renewal := loginProtect sampleSettings (cloudKey 3600000) cloudKeyClient in
   fst renewal = Returned true /\ logins (requests (snd renewal)) = 2%nat /\
   (request_url <$> last (requests (snd renewal))) = Some (root +:+ ":7443/api/auth")).
Proof.
  intros first second later. split; [| split].
  - destruct (loginProtect_idempotent_renewal sampleSettings unifiOsController freshClient)
      as (_ & Htwice & _).
    destruct (Htwice (snd first)) as [Hrun Hcount];
      [vm_compute; reflexivity | vm_compute; discriminate |].
    subst second. rewrite Hrun.
    cbv beta iota delta [fst snd set_ticks requests].
    split; [reflexivity |]. split; [reflexivity |].
    fold (snd first). fold (requests (snd first)). rewrite Hcount.
    vm_compute. reflexivity.
  - destruct (loginProtect_idempotent_renewal sampleSettings later (snd first))
      as (_ & _ & Hrenew & _).
    destruct (Hrenew ltac:(vm_compute; reflexivity) _ _ (surjective_pairing _)) as [Hposted _].
    destruct Hposted as (Hcount & _); [vm_compute; reflexivity |].
    rewrite Hcount. vm_compute. reflexivity.
  - destruct (loginProtect_idempotent_renewal sampleSettings (cloudKey 3600000) cloudKeyClient)
      as (_ & _ & _ & Hposts).
    destruct Hposts as (found & s1 & Hacq & Hcase);
      [vm_compute; reflexivity | reflexivity |].
    pose proof (f_equal fst Hacq) as Hfound. pose proof (f_equal snd Hacq) as Hs1.
    clear Hacq. cbv beta iota delta [fst snd] in Hfound, Hs1.
    vm_compute in Hfound. injection Hfound as <-.
    destruct Hcase as (accepted & s' & Hrun & Hsent & Hcount & _ & _ & Haccepted).
    rewrite Hrun. cbv beta iota delta [fst snd]. split; [| split].
    + f_equal. apply Haccepted. subst s1.
      exists (mkResponse 200 EmptyString (<["Authorization" := "bearer-token"]> ∅) None).
      split; [vm_compute; reflexivity |]. split; vm_compute; reflexivity.
    + rewrite Hcount. vm_compute. reflexivity.
    + rewrite Hsent, last_snoc. subst s1. vm_compute. reflexivity.
Defined.

(** ** Device actions *)

Section Actions.

Context (cfg : Settings) (world : World).

#[local] Arguments fetch : simpl never.
#[local] Arguments loginProtect : simpl never.

(** C8.  On a session that is logged in within the refresh interval and
    has the administrator flag, [enableRtsp] on a camera whose channels are
    all RTSP-enabled returns that very device and sends nothing: but for the
    clock having been read, the state is the same. *)
Theorem enableRtsp_idempotent s device :
  loggedIn s = true ->
  clock world (ticks s) <= loginAge s + PROTECT_LOGIN_REFRESH_INTERVAL cfg * 1000 ->
  isAdminUser s = true ->
  modelKey device = "camera" ->
  (forall chs channel,
     channels device = Some chs -> channel ∈ chs -> isRtspEnabled channel = true) ->
  enableRtsp cfg world device s = (Returned (JCamera device), set_ticks (S (ticks s)) s) /\
  requests (set_ticks (S (ticks s)) s) = requests s.
Proof.
  intros Hin Hfresh Hadmin Hcamera Henabled. split; [| reflexivity].
  unfold enableRtsp. unfold_m. rewrite (loginProtect_fresh cfg world s Hin Hfresh). cbn.
  rewrite Hadmin, Hcamera. cbn.
  assert (default false (someChannelDisabled device) = false) as ->; [| reflexivity].
  unfold someChannelDisabled. destruct (channels device) as [chs |] eqn:Hchs; [| reflexivity].
  cbn. apply not_true_is_false. intros Hsome.
  apply existsb_exists in Hsome. destruct Hsome as (channel & Hmember & Hoff).
  rewrite (Henabled chs channel eq_refl) in Hoff; [discriminate |].
  apply list_elem_of_In. exact Hmember.
Qed.

End Actions.

(** On [syncedClient], camera A has its one channel enabled. *)
Lemma enableRtsp_idempotent_witness :
  fst (enableRtsp sampleSettings unifiOsController cameraA syncedClient)
    = Returned (JCamera cameraA) /\
  requests (snd (enableRtsp sampleSettings unifiOsController cameraA syncedClient))
    = requests syncedClient.
Proof.
  destruct (enableRtsp_idempotent sampleSettings unifiOsController syncedClient cameraA)
    as [Hrun _].
  - vm_compute. reflexivity.
  - vm_compute. discriminate.
  - vm_compute. reflexivity.
  - reflexivity.
  - intros chs channel Hchs Hmember. injection Hchs as <-.
    apply list_elem_of_singleton in Hmember. subst channel. reflexivity.
  - rewrite Hrun. cbv beta iota delta [fst snd set_ticks requests].
    split; reflexivity.
Defined.

(** ** RTSP configuration of the snapshot *)

(** C10.  [isAllRtspConfigured] answers true exactly when the snapshot
    holds a camera with a channel whose RTSP flag is off; without a snapshot
    or a camera list the answer is undefined. *)
Theorem isAllRtspConfigured_some_disabled s :
  (isAllRtspConfigured s = Some true <->
   exists b devices camera chs channel,
     bootstrap s = Some b /\ cameras b = Some devices /\ camera ∈ devices /\
     channels camera = Some chs /\ channel ∈ chs /\ isRtspEnabled channel = false) /\
  (bootstrap s ≫= cameras = None <-> isAllRtspConfigured s = None).
Proof.
  unfold isAllRtspConfigured. split.
  - destruct (bootstrap s) as [b |]; cbn.
    + destruct (cameras b) as [devices |] eqn:Hdevices; cbn.
      * split.
        -- intros [= Hsome]. apply existsb_exists in Hsome.
           destruct Hsome as (camera & Hcamera & Hoff).
           unfold someChannelDisabled in Hoff.
           destruct (channels camera) as [chs |] eqn:Hchs; [| discriminate].
           cbn in Hoff. apply existsb_exists in Hoff.
           destruct Hoff as (channel & Hchannel & Hflag).
           exists b, devices, camera, chs, channel.
           rewrite !list_elem_of_In. apply negb_true_iff in Hflag. auto 10.
        -- intros (b' & devices' & camera & chs & channel & [= <-] & Hd & Hc & Hchs & Hch & Hoff).
           rewrite Hdevices in Hd. injection Hd as <-.
           f_equal. apply existsb_exists. exists camera.
           split; [now apply list_elem_of_In |].
           unfold someChannelDisabled. rewrite Hchs. cbn.
           apply existsb_exists. exists channel.
           split; [now apply list_elem_of_In |]. now rewrite Hoff.
      * split; [discriminate |].
        intros (b' & devices' & _ & _ & _ & [= <-] & Hnone & _). congruence.
    + split; [discriminate |]. intros (b' & _ & _ & _ & _ & Hnone & _). discriminate.
  - destruct (bootstrap s ≫= cameras); cbn; split; intros; congruence.
Qed.

(** ** Bootstrap synchronisation *)

Section Synchronisation.

Context (cfg : Settings) (world : World).

#[local] Arguments fetch : simpl never.
#[local] Arguments loginProtect : simpl never.
#[local] Arguments logins : simpl never.

(** The check of the administrator role writes nothing but the flag and
    the log. *)
Lemma checkAdminUserStatus_frame firstRun s r s' :
  checkAdminUserStatus firstRun s = (r, s') ->
  bootstrap s' = bootstrap s /\ Cameras s' = Cameras s /\
  loggedIn s' = loggedIn s /\ loginAge s' = loginAge s /\
  isUnifiOs s' = isUnifiOs s /\ eventListener s' = eventListener s /\
  ticks s' = ticks s /\ requests s' = requests s /\ headers s' = headers s.
Proof.
  intros H. unfold checkAdminUserStatus in H. unfold_m.
  split_cases_in H; finish_run H; cbn; auto 10.
Qed.

Ltac use_login :=
  repeat match goal with
         | E : negb ?a = _ |- _ => is_var a; destruct a; try discriminate E; clear E
         end;
  repeat match goal with
         | F : loginProtect _ _ _ = _ |- _ =>
             apply loginProtect_cases in F; cbn in F; destruct_and!
         end;
  repeat match goal with
         | X : Returned ?b = Returned ?c -> _ |- _ =>
             first [ specialize (X eq_refl) | clear X ]
         end;
  destruct_and?.

Lemma launchEventListener_frame s r s' :
  launchEventListener cfg world s = (r, s') ->
  (exists b, r = Returned b) /\
  Cameras s' = Cameras s /\
  (bootstrap s' = bootstrap s \/ (bootstrap s' = None /\ r = Returned false)).
Proof.
  intros H. unfold launchEventListener, newWebSocket in H. unfold_m.
  split_cases_in H; finish_run H; use_login; cbn; try no_throw;
    split; eauto; split; try congruence.
  all: try (left; congruence).
  all: match goal with
       | X : _ \/ _ |- _ => destruct X; [left; congruence | right; split; congruence]
       end.
Qed.

#[local] Arguments checkAdminUserStatus : simpl never.
#[local] Arguments launchEventListener : simpl never.

(** What a run of [bootstrapProtect] does to the snapshot, by cases: the
    login fails and the run ends there; or the answer to the bootstrap
    request yields no snapshot, and the stored one is cleared with the
    session; or it yields one, which is stored (and is cleared again only
    if the login inside [launchEventListener] then fails). *)
Lemma bootstrapProtect_cases s r s' :
  bootstrapProtect cfg world s = (r, s') ->
  Cameras s' = Cameras s /\
  ((r = Returned false /\ loginProtect cfg world s = (Returned false, s')) \/
   (exists s1 response s2,
      loginProtect cfg world s = (Returned true, s1) /\
      fetch cfg world (bootstrapUrl s1) GET NoBody true true s1 = (Returned response, s2) /\
      match snapshotOf response with
      | None => r = Returned false /\ bootstrap s' = None /\ loggedIn s' = false
      | Some b =>
          (bootstrap s' = Some b \/ (bootstrap s' = None /\ r = Returned false))
      end)).
Proof.
  intros H. unfold bootstrapProtect in H. unfold_m.
  destruct (loginProtect cfg world s) as [[login | e] s1] eqn:Hlogin; cbn in H.
  2: { apply loginProtect_cases in Hlogin. destruct Hlogin as [[b Hb] _]. discriminate Hb. }
  pose proof (loginProtect_cases _ _ _ _ _ Hlogin) as (_ & Hcam1 & _).
  destruct login; cbn in H.
  2: { finish_run H. split; [assumption |]. left. split; reflexivity. }
  destruct (fetch cfg world (bootstrapUrl s1) GET NoBody true true s1)
    as [[response | e] s2] eqn:Hfetch; cbn in H.
  2: { apply fetch_frame in Hfetch. destruct Hfetch as [[b Hb] _]. discriminate Hb. }
  pose proof (fetch_frame _ _ _ _ _ _ _ _ _ _ Hfetch) as (_ & _ & _ & _ & Hcam2 & _).
  assert (Cameras s' = Cameras s /\
          match snapshotOf response with
          | None => r = Returned false /\ bootstrap s' = None /\ loggedIn s' = false
          | Some b =>
              (bootstrap s' = Some b \/ (bootstrap s' = None /\ r = Returned false))
          end) as [Hcam Hsnap].
  { clear Hlogin Hfetch. unfold snapshotOf, isOk in *.
    destruct response as [resp |]; cbn in *;
      [destruct (ok resp) eqn:Hok; cbn in *;
       [destruct (body resp) as [[| b | c] |] eqn:Hbody; cbn in *;
        [| destruct (cameras b) eqn:Hcams; cbn in * | |] |] |].
    all: split_cases;
      repeat match goal with
             | X : negb _ = false |- _ => apply negb_false_iff in X
             | X : negb _ = true |- _ => apply negb_true_iff in X
             | X : bool_decide _ = true |- _ => apply bool_decide_eq_true in X
             | X : bool_decide _ = false |- _ => apply bool_decide_eq_false in X
             | X : is_Some None |- _ => destruct X; discriminate
             | X : ¬ is_Some (Some _) |- _ => destruct X; eauto
             | X : (_, _) = (_, _) |- _ => injection X as ? ?; subst
             end;
      try discriminate;
      repeat match goal with
             | F : checkAdminUserStatus _ _ = _ |- _ =>
                 apply checkAdminUserStatus_frame in F; cbn in F; destruct_and!
             | F : launchEventListener _ _ _ = _ |- _ =>
                 apply launchEventListener_frame in F; cbn in F; destruct_and!
             end;
      unfold clearLoginCredentials, terminateListener; cbn;
      try (split; [congruence |]); auto.
    all: try (left; congruence).
    all: match goal with
         | X : _ \/ _ |- _ =>
             destruct X as [? | [? ?]]; [left; congruence | right; split; congruence]
         end. }
  split; [assumption |]. right. exists s1, response, s2. auto.
Qed.

Lemma bootstrapProtect_true s s1 :
  bootstrapProtect cfg world s = (Returned true, s1) ->
  Cameras s1 = Cameras s /\
  exists b devices, bootstrap s1 = Some b /\ cameras b = Some devices.
Proof.
  intros H. apply bootstrapProtect_cases in H.
  destruct H as [Hcam [[Habs _] | (s0 & response & s2 & _ & _ & Hsnap)]];
    [discriminate Habs |].
  split; [assumption |].
  destruct (snapshotOf response) as [b |] eqn:Hyield.
  - destruct Hsnap as [Hb | [_ Habs]]; [| discriminate Habs].
    exists b. unfold snapshotOf in Hyield.
    destruct response as [resp |]; [| discriminate].
    destruct (ok resp); [| discriminate].
    destruct (body resp) as [[| b' | c] |]; try discriminate.
    destruct (cameras b') as [devices |] eqn:Hdevices; [| discriminate].
    injection Hyield as ->. eauto.
  - destruct Hsnap as [Habs _]. discriminate Habs.
Qed.

Lemma set_output_id s : set_output (output s) s = s.
Proof. destruct s. reflexivity. Qed.

(** A loop whose body only logs, logs what its rounds log, one after the
    other. *)
Lemma forOf_notes {A} (l : list A) (body : A -> M unit) (notes : A -> list Output)
    (known : option (list ProtectCameraConfig)) :
  (forall x t, Cameras t = known ->
     body x t = (Returned tt, set_output (output t ++ notes x) t)) ->
  forall s, Cameras s = known ->
    forOf l body s = (Returned tt, set_output (output s ++ flat_map notes l) s).
Proof.
  intros Hbody. induction l as [| x l IH]; intros s Hs; cbn.
  - rewrite app_nil_r, set_output_id. reflexivity.
  - unfold_m. rewrite (Hbody x s Hs). rewrite IH by exact Hs. cbn.
    rewrite <- app_assoc. reflexivity.
Qed.

Lemma knows_spec l device :
  knows l device = true <-> exists x, x ∈ default [] l /\ mac x = mac device.
Proof.
  unfold knows. destruct l as [devices |]; cbn.
  - rewrite existsb_exists. split; intros (x & Hx & Hmac); exists x.
    + apply String.eqb_eq in Hmac. rewrite list_elem_of_In. auto.
    + rewrite <- list_elem_of_In. split; [assumption |]. now apply String.eqb_eq.
  - split; [discriminate |]. intros (x & Hx & _). inversion Hx.
Qed.

Lemma discovered_in_notes known devices c :
  Log (MsgDiscovered c) ∈ flat_map (discoveryNotes known) devices <->
  c ∈ devices /\ isManaged c = true /\
  ~ exists x, x ∈ default [] known /\ mac x = mac c.
Proof.
  rewrite list_elem_of_In, in_flat_map. split.
  - intros (d & Hd & Hnote). unfold discoveryNotes in Hnote.
    destruct (knows known d) eqn:Hknown; [destruct Hnote |].
    destruct (isManaged d) eqn:Hmanaged; cbn in Hnote; [| destruct Hnote].
    destruct Hnote as [[= ->] | [Habs | []]]; [| discriminate Habs].
    rewrite list_elem_of_In. repeat split; try assumption.
    rewrite <- knows_spec. congruence.
  - intros (Hc & Hmanaged & Hnew). exists c. rewrite <- list_elem_of_In.
    split; [assumption |]. unfold discoveryNotes.
    destruct (knows known c) eqn:Hknown; [apply knows_spec in Hknown; contradiction |].
    rewrite Hmanaged. cbn. auto.
Qed.

Lemma removal_in_notes newDeviceList old c :
  Debug (MsgRemoval c) ∈ flat_map (removalNotes newDeviceList) old <->
  c ∈ old /\ ~ exists x, x ∈ default [] newDeviceList /\ mac x = mac c.
Proof.
  rewrite list_elem_of_In, in_flat_map. split.
  - intros (d & Hd & Hnote). unfold removalNotes in Hnote.
    destruct (knows newDeviceList d) eqn:Hknown; [destruct Hnote |].
    destruct Hnote as [[= ->] | [Habs | []]]; [| discriminate Habs].
    rewrite list_elem_of_In. split; [assumption |].
    rewrite <- knows_spec. congruence.
  - intros (Hc & Hgone). exists c. rewrite <- list_elem_of_In.
    split; [assumption |]. unfold removalNotes.
    destruct (knows newDeviceList c) eqn:Hknown; [apply knows_spec in Hknown; contradiction |].
    cbn. auto.
Qed.

Lemma discovered_not_in_removals newDeviceList old c :
  Log (MsgDiscovered c) ∉ flat_map (removalNotes newDeviceList) old.
Proof.
  rewrite list_elem_of_In, in_flat_map. intros (d & _ & Hnote).
  unfold removalNotes in Hnote. destruct (knows newDeviceList d); [destruct Hnote |].
  destruct Hnote as [Habs | [Habs | []]]; discriminate Habs.
Qed.

Lemma removal_not_in_discoveries known devices c :
  Debug (MsgRemoval c) ∉ flat_map (discoveryNotes known) devices.
Proof.
  rewrite list_elem_of_In, in_flat_map. intros (d & _ & Hnote).
  unfold discoveryNotes in Hnote. destruct (knows known d); [destruct Hnote |].
  destruct (isManaged d); cbn in Hnote; [| destruct Hnote].
  destruct Hnote as [Habs | [Habs | []]]; discriminate Habs.
Qed.

#[local] Arguments bootstrapProtect : simpl never.

(** After a successful [bootstrapProtect], [refreshDevices] logs the two
    loops' notes and saves the new list. *)
Lemma refreshDevices_after_bootstrap s s1 b devices :
  bootstrapProtect cfg world s = (Returned true, s1) ->
  bootstrap s1 = Some b -> cameras b = Some devices ->
  exists s',
    refreshDevices cfg world s = (Returned true, s') /\
    Cameras s' = Some devices /\ bootstrap s' = Some b /\
    requests s' = requests s1 /\
    output s' =
      output s1 ++ (Debug MsgInspectBootstrap ::
        (flat_map (discoveryNotes (Cameras s1)) devices ++
         flat_map (removalNotes (Some devices)) (default [] (Cameras s1)))).
Proof.
  intros Hrun Hb Hdevices. unfold refreshDevices. unfold_m.
  rewrite Hrun. cbn. rewrite Hb, Hdevices.
  erewrite (forOf_notes devices _ (discoveryNotes (Cameras s1)) (Cameras s1));
    [| | reflexivity].
  2: { intros x t Ht. cbn. rewrite Ht. unfold discoveryNotes.
       destruct (knows (Cameras s1) x); cbn;
         [now rewrite app_nil_r, set_output_id |].
       destruct (isManaged x); cbn;
         [| now rewrite app_nil_r, set_output_id].
       rewrite <- app_assoc. reflexivity. }
  cbn. destruct (Cameras s1) as [old |] eqn:Hold; cbn.
  - erewrite (forOf_notes old _ (removalNotes (Some devices)) (Some old));
      [| | exact Hold].
    2: { intros x t Ht. cbn. unfold removalNotes, knows.
         destruct (existsb _ devices); cbn;
           [now rewrite app_nil_r, set_output_id |].
         rewrite <- app_assoc. reflexivity. }
    cbn. eexists. split; [reflexivity |]. cbn.
    repeat split; try assumption.
    rewrite <- !app_assoc. reflexivity.
  - eexists. split; [reflexivity |]. cbn.
    repeat split; try assumption.
    rewrite <- !app_assoc. cbn. rewrite app_nil_r. reflexivity.
Qed.

(** C4.  When the refresh of the snapshot succeeds, [refreshDevices]
    returns true, saves the new camera list, and what it adds to the log
    after the dump of the snapshot holds a "discovered" entry for a camera
    exactly when the camera is in the new list, is managed, and no camera of
    the old list has its mac address, and a "removal" entry for a camera
    exactly when the camera is in the old list and no camera of the new list
    has its mac address.  A camera whose mac address is in both lists gets
    neither. *)
Theorem refreshDevices_diff s s1 :
  bootstrapProtect cfg world s = (Returned true, s1) ->
  exists b devices notes s',
    bootstrap s1 = Some b /\ cameras b = Some devices /\
    refreshDevices cfg world s = (Returned true, s') /\
    Cameras s' = Some devices /\
    output s' = output s1 ++ (Debug MsgInspectBootstrap :: notes) /\
    let old := default [] (Cameras s) in
    (forall c, Log (MsgDiscovered c) ∈ notes <->
       c ∈ devices /\ isManaged c = true /\ ~ exists x, x ∈ old /\ mac x = mac c) /\
    (forall c, Debug (MsgRemoval c) ∈ notes <->
       c ∈ old /\ ~ exists x, x ∈ devices /\ mac x = mac c).
Proof.
  intros Hrun.
  destruct (bootstrapProtect_true _ _ Hrun) as (Hcam & b & devices & Hb & Hdevices).
  destruct (refreshDevices_after_bootstrap _ _ _ _ Hrun Hb Hdevices)
    as (s' & Hrefresh & Hsaved & _ & _ & Hout).
  rewrite Hcam in Hout.
  exists b, devices,
    (flat_map (discoveryNotes (Cameras s)) devices ++
     flat_map (removalNotes (Some devices)) (default [] (Cameras s))), s'.
  split; [exact Hb |]. split; [exact Hdevices |]. split; [exact Hrefresh |].
  split; [exact Hsaved |]. split; [exact Hout |].
  cbn. split; intros c; rewrite elem_of_app.
  - rewrite discovered_in_notes. split; [| auto].
    intros [Hin | Hin]; [exact Hin | now apply discovered_not_in_removals in Hin].
  - rewrite removal_in_notes. split; [| auto].
    intros [Hin | Hin]; [now apply removal_not_in_discoveries in Hin | exact Hin].
Qed.

(** [refreshDevices] is [bootstrapProtect] followed by the two loops, which
    leave the snapshot alone. *)
Lemma refreshDevices_cases s r s' :
  refreshDevices cfg world s = (r, s') ->
  exists r1 s1,
    bootstrapProtect cfg world s = (r1, s1) /\
    bootstrap s' = bootstrap s1 /\
    (r1 <> Returned true -> r = r1 /\ s' = s1).
Proof.
  intros H.
  destruct (bootstrapProtect cfg world s) as [r1 s1] eqn:Hrun.
  exists r1, s1. split; [reflexivity |].
  destruct r1 as [[|] | e].
  - destruct (bootstrapProtect_true _ _ Hrun) as (_ & b & devices & Hb & Hdevices).
    destruct (refreshDevices_after_bootstrap _ _ _ _ Hrun Hb Hdevices)
      as (t & Hrefresh & _ & Hkept & _).
    rewrite H in Hrefresh. injection Hrefresh as -> ->.
    split; [congruence |]. intros Habs. now destruct Habs.
  - unfold refreshDevices in H. unfold_m. rewrite Hrun in H. cbn in H.
    injection H as <- <-. auto.
  - unfold refreshDevices in H. unfold_m. rewrite Hrun in H. cbn in H.
    injection H as <- <-. auto.
Qed.

(** C2 (amended).  The stored snapshot is set to a new one only from an
    OK answer to the bootstrap request whose body parses and has a camera
    list: a snapshot found after [refreshDevices] is the one stored before,
    or the one such an answer has yielded.  When the login succeeds and the
    answer yields no snapshot, [refreshDevices] returns false, the stored
    snapshot is cleared together with the session, and the saved camera
    list is the one saved before. *)
Theorem refreshDevices_snapshot s r s' :
  refreshDevices cfg world s = (r, s') ->
  (forall b, bootstrap s' = Some b ->
     bootstrap s = Some b \/
     exists s1 response s2,
       loginProtect cfg world s = (Returned true, s1) /\
       fetch cfg world (bootstrapUrl s1) GET NoBody true true s1 = (Returned response, s2) /\
       snapshotOf response = Some b) /\
  (forall s1 response s2,
     loginProtect cfg world s = (Returned true, s1) ->
     fetch cfg world (bootstrapUrl s1) GET NoBody true true s1 = (Returned response, s2) ->
     snapshotOf response = None ->
     r = Returned false /\ bootstrap s' = None /\ loggedIn s' = false /\
     Cameras s' = Cameras s).
Proof.
  intros H. apply refreshDevices_cases in H.
  destruct H as (r1 & t & Hrun & Hkept & Hfailed).
  apply bootstrapProtect_cases in Hrun. destruct Hrun as [Hcam Hrun]. split.
  - intros b Hb. rewrite Hkept in Hb.
    destruct Hrun as [[_ Hlogin] | (s1 & response & s2 & Hlogin & Hfetch & Hsnap)].
    + apply loginProtect_cases in Hlogin.
      destruct Hlogin as (_ & _ & _ & _ & _ & _ & _ & Hfalse).
      destruct (Hfalse eq_refl) as [_ [Hsame | Hnone]]; [left | ]; congruence.
    + right. exists s1, response, s2. split; [assumption |]. split; [assumption |].
      destruct (snapshotOf response) as [b' |].
      * destruct Hsnap as [Hb' | [Hnone _]]; congruence.
      * destruct Hsnap as (_ & Hnone & _). congruence.
  - intros s1 response s2 Hlogin Hfetch Hnone.
    destruct Hrun as [[_ Habs] | (s1' & response' & s2' & Hlogin' & Hfetch' & Hsnap)].
    + rewrite Hlogin in Habs. discriminate Habs.
    + rewrite Hlogin in Hlogin'. injection Hlogin' as <-.
      rewrite Hfetch in Hfetch'. injection Hfetch' as <- <-.
      rewrite Hnone in Hsnap. destruct Hsnap as (-> & Hcleared & Hout).
      destruct Hfailed as [-> ->]; [discriminate |]. auto.
Qed.

End Synchronisation.

(** During [outage] the synchronised client loses its snapshot and keeps
    its camera list. *)
Lemma refreshDevices_snapshot_witness :
  fst (refreshDevices sampleSettings outage syncedClient) = Returned false /\
  bootstrap (snd (refreshDevices sampleSettings outage syncedClient)) = None /\
  Cameras (snd (refreshDevices sampleSettings outage syncedClient)) = Some [cameraA; cameraB].
Proof.
  destruct (refreshDevices_snapshot sampleSettings outage syncedClient _ _
              (surjective_pairing _)) as [_ Hfail].
  destruct (Hfail (snd (loginProtect sampleSettings outage syncedClient)) None
              (snd (fetch sampleSettings outage (root +:+ "/proxy/protect/api/bootstrap")
                      GET NoBody true true
                      (snd (loginProtect sampleSettings outage syncedClient)))))
    as (Hr & Hb & _ & Hc).
  - vm_compute. reflexivity.
  - vm_compute. reflexivity.
  - reflexivity.
  - split; [exact Hr |]. split; [exact Hb |]. rewrite Hc. vm_compute. reflexivity.
Defined.

(** C2 (counterexample).  A refresh that fails on the bootstrap request
    does not leave the stored snapshot as it was: it clears it. *)
Lemma refreshDevices_failure_counterexample :
  ~ (forall s r s',
       refreshDevices sampleSettings outage s = (r, s') ->
       r = Returned false ->
       bootstrap s' = bootstrap s).
Proof.
  intros claim.
  pose proof (claim syncedClient _ _ (surjective_pairing _)
                ltac:(vm_compute; reflexivity)) as H.
  vm_compute in H. discriminate H.
Qed.

(** The refresh on [changedController] reports camera C as discovered and
    camera A as removed, and says nothing of camera B. *)
Lemma refreshDevices_diff_witness :
  exists notes s',
    refreshDevices sampleSettings changedController syncedClient = (Returned true, s') /\
    output s' =
      output (snd (bootstrapProtect sampleSettings changedController syncedClient))
        ++ (Debug MsgInspectBootstrap :: notes) /\
    Log (MsgDiscovered cameraC) ∈ notes /\ Debug (MsgRemoval cameraA) ∈ notes /\
    (Log (MsgDiscovered cameraB) ∉ notes) /\ (Debug (MsgRemoval cameraB) ∉ notes).
Proof.
  destruct (refreshDevices_diff sampleSettings changedController syncedClient
              (snd (bootstrapProtect sampleSettings changedController syncedClient)))
    as (b & devices & notes & s' & Hb & Hdevices & Hrun & _ & Hout & Hdisc & Hrem).
  - vm_compute. reflexivity.
  - vm_compute in Hb. injection Hb as <-. vm_compute in Hdevices. injection Hdevices as <-.
    exists notes, s'. split; [exact Hrun |]. split; [exact Hout |].
    assert (default [] (Cameras syncedClient) = [cameraA; cameraB]) as Hold
      by (vm_compute; reflexivity).
    cbv zeta in Hdisc, Hrem. rewrite Hold in Hdisc, Hrem. clear Hold.
    fold cameraB cameraC in Hdisc, Hrem |- *.
    assert (forall (c : ProtectCameraConfig) l, In c l -> c ∈ l) as Hin
      by (intros; now apply list_elem_of_In).
    rewrite !Hdisc, !Hrem. repeat split.
    + apply Hin. cbn. auto.
    + intros (x & Hx & Hmac).
      apply elem_of_cons in Hx as [-> | Hx]; [discriminate Hmac |].
      apply list_elem_of_singleton in Hx as ->. discriminate Hmac.
    + apply Hin. cbn. auto.
    + intros (x & Hx & Hmac).
      apply elem_of_cons in Hx as [-> | Hx]; [discriminate Hmac |].
      apply list_elem_of_singleton in Hx as ->. discriminate Hmac.
    + intros (_ & _ & Hnew). apply Hnew. exists cameraB.
      split; [apply Hin; cbn; auto | reflexivity].
    + intros (_ & Hgone). apply Hgone. exists cameraB.
      split; [apply Hin; cbn; auto | reflexivity].
Defined.

(** ** The administrator flag *)

(** On entries that all have a second field the loop does not throw, and
    it answers true exactly when an entry for cameras lists "write". *)
Lemma scanPermissions_wellformed entries :
  (forall e, e ∈ entries -> exists kind caps rest, split ":"%char e = kind :: caps :: rest) ->
  exists admin,
    scanPermissions entries = Returned admin /\
    (admin = true <->
     exists e caps rest,
       e ∈ entries /\ split ":"%char e = "camera" :: caps :: rest /\
       "write" ∈ split ","%char caps).
Proof.
  induction entries as [| entry entries IH]; intros Hwf.
  - exists false. split; [reflexivity |]. split; [discriminate |].
    intros (e & _ & _ & He & _). inversion He.
  - destruct IH as (admin & Hrest & Hiff).
    { intros e He. apply Hwf. now apply list_elem_of_further. }
    destruct (Hwf entry) as (kind & caps & rest & Hsplit); [apply list_elem_of_here |].
    cbn. rewrite Hsplit. cbn.
    destruct (bool_decide (Some kind = Some "camera")) eqn:Hkind; cbn.
    + apply bool_decide_eq_true in Hkind. injection Hkind as ->.
      destruct (bool_decide ("write" ∈ split ","%char caps)) eqn:Hwrite.
      * apply bool_decide_eq_true in Hwrite. exists true. split; [reflexivity |].
        split; [| reflexivity]. intros _. exists entry, caps, rest.
        split; [apply list_elem_of_here | auto].
      * apply bool_decide_eq_false in Hwrite. exists admin. split; [exact Hrest |].
        rewrite Hiff. split.
        -- intros (e & c & r & He & Hs & Hw). exists e, c, r.
           split; [now apply list_elem_of_further | auto].
        -- intros (e & c & r & He & Hs & Hw).
           apply elem_of_cons in He as [-> | He]; [| eauto 10].
           rewrite Hsplit in Hs. injection Hs as <- <-. contradiction.
    + apply bool_decide_eq_false in Hkind. exists admin. split; [exact Hrest |].
      rewrite Hiff. split.
      * intros (e & c & r & He & Hs & Hw). exists e, c, r.
        split; [now apply list_elem_of_further | auto].
      * intros (e & c & r & He & Hs & Hw).
        apply elem_of_cons in He as [-> | He]; [| eauto 10].
        rewrite Hsplit in Hs. injection Hs as -> _ _. now destruct Hkind.
Qed.

Example scanPermissions_read_write :
  scanPermissions ["camera:read,write:all"] = Returned true.
Proof. reflexivity. Qed.

Example scanPermissions_read_only :
  scanPermissions ["camera:read:all"] = Returned false.
Proof. reflexivity. Qed.

(** With the user's record and its permissions in the snapshot, the flag
    is set to what the loop answers. *)
Lemma checkAdminUserStatus_sets_flag firstRun s b allUsers user entries admin :
  bootstrap s = Some b -> users b = Some allUsers ->
  find (fun x => String.eqb (user_id x) (authUserId b)) allUsers = Some user ->
  allPermissions user = Some entries ->
  scanPermissions entries = Returned admin ->
  fst (checkAdminUserStatus firstRun s) = Returned true /\
  isAdminUser (snd (checkAdminUserStatus firstRun s)) = admin.
Proof.
  intros Hb Husers Huser Hentries Hscan.
  unfold checkAdminUserStatus. unfold_m.
  rewrite Hb, Husers, Huser. cbn. rewrite Hentries, Hscan. cbn.
  destruct firstRun, admin, (isAdminUser s); cbn; auto.
Qed.

(** Without the user's record, or without its permissions, the check
    returns early and the flag is not written. *)
Lemma checkAdminUserStatus_early_return firstRun s :
  (forall b allUsers,
     bootstrap s = Some b -> users b = Some allUsers ->
     find (fun x => String.eqb (user_id x) (authUserId b)) allUsers ≫= allPermissions = None) ->
  checkAdminUserStatus firstRun s = (Returned false, s).
Proof.
  intros Habsent. unfold checkAdminUserStatus. unfold_m.
  destruct (bootstrap s) as [b |]; [| reflexivity].
  destruct (users b) as [allUsers |] eqn:Husers; [| reflexivity].
  rewrite (Habsent b allUsers eq_refl Husers). reflexivity.
Qed.

(** C5 (code bug).  The client is administrator after its first
    synchronisation.  When the next snapshot has no record of the client's
    user, the synchronisation succeeds, stores that snapshot, and the flag
    is still set. *)
Theorem refreshDevices_stale_admin :
  isAdminUser syncedClient = true /\
  fst (refreshDevices sampleSettings demotedController syncedClient) = Returned true /\
  bootstrap (snd (refreshDevices sampleSettings demotedController syncedClient))
    = Some inventoryNoUser /\
  isAdminUser (snd (refreshDevices sampleSettings demotedController syncedClient)) = true.
Proof. repeat split; vm_compute; reflexivity. Qed.

(** ** Failures that leave the client as exceptions *)

(** A call of [updateCamera] for which [fetch] has no response throws:
    [response.status] is read off the null. *)
Lemma updateCamera_no_response_throws cfg world s device payload s1 s2 :
  loginProtect cfg world s = (Returned true, s1) ->
  isAdminUser s1 = true ->
  fetch cfg world (camerasUrl s1 +:+ "/" +:+ id device) PATCH (PayloadBody payload) true true
    (set_output (output s1 ++ [Debug (MsgPayload device payload)]) s1) = (Returned None, s2) ->
  updateCamera cfg world (Some device) payload s
    = (Thrown (TypeError "Cannot read property 'status' of null"), s2).
Proof.
  intros Hlogin Hadmin Hfetch. unfold updateCamera. unfold_m.
  rewrite Hlogin. cbn. rewrite Hadmin. cbn. rewrite Hfetch. reflexivity.
Qed.

(** C9 (code bug).  Four expected failures that come out of an operation
    as an exception: [updateCamera] when the controller answers the PATCH
    with HTTP 500, [enableRtsp] when the connection is reset, [enableRtsp]
    when the body of the answer does not parse, and [refreshDevices] when a
    permission string of the user has no second field. *)
Theorem operations_throw_on_expected_failures :
  fst (updateCamera sampleSettings unifiOsController (Some cameraB) "{}" syncedClient)
    = Thrown (TypeError "Cannot read property 'status' of null") /\
  fst (enableRtsp sampleSettings resettingController cameraB syncedClient)
    = Thrown (TypeError "Cannot read property 'status' of null") /\
  fst (enableRtsp sampleSettings garbledController cameraB syncedClient)
    = Thrown SyntaxError /\
  fst (refreshDevices sampleSettings oddController freshClient)
    = Thrown (TypeError "Cannot read property 'split' of undefined").
Proof. repeat split; vm_compute; reflexivity. Qed.

(** ** The heartbeat of the event listener *)

Section Heartbeat.

Context (cfg : Settings).

Lemma fmap_alter_same {A B} (f : A -> B) (g : A -> A) i (l : list A) :
  (forall x, f (g x) = f x) -> f <$> alter g i l = f <$> l.
Proof.
  intros Hsame. revert i. induction l as [| x l IH]; intros [| i]; cbn; try reflexivity.
  - now rewrite Hsame.
  - now rewrite IH.
Qed.

Lemma clearTimeout_keeps handle s :
  heartbeatsOnSockets s ->
  heartbeatsOnSockets (clearTimeout handle s) /\
  eventListener (clearTimeout handle s) = eventListener s /\
  eventListenerConfigured (clearTimeout handle s) = eventListenerConfigured s /\
  sockets (clearTimeout handle s) = sockets s.
Proof.
  intros [Htimers Hsockets]. destruct handle as [i |]; cbn; [| repeat split; assumption].
  repeat split; try assumption. cbn.
  apply Forall_alter; [assumption |]. intros t _ Ht. exact Ht.
Qed.

(** An open or a ping sets the timer on the socket and leaves the client's
    handle and every socket's connection alone. *)
Lemma dispatch_heartbeat_keeps ws e now s :
  e = OnOpen \/ e = OnPing ->
  heartbeatsOnSockets s ->
  heartbeatsOnSockets (dispatch cfg ws e now s) /\
  eventListener (dispatch cfg ws e now s) = eventListener s /\
  eventListenerConfigured (dispatch cfg ws e now s) = eventListenerConfigured s /\
  terminated <$> sockets (dispatch cfg ws e now s) = terminated <$> sockets s.
Proof.
  intros He Hinv.
  assert (dispatch cfg ws e now s = heartbeatEventListener cfg (ObjSocket ws) now s) as ->
    by (destruct He as [-> | ->]; reflexivity).
  unfold heartbeatEventListener.
  destruct (clearTimeout_keeps (heartbeatTimerOf (ObjSocket ws) s) s Hinv)
    as ([Htimers Hsockets] & Hlistener & Hconfigured & Hsame).
  set (s1 := clearTimeout (heartbeatTimerOf (ObjSocket ws) s) s) in *.
  cbn. repeat split.
  - cbn. apply Forall_app. split; [assumption |]. repeat constructor. discriminate.
  - cbn. apply Forall_alter; [assumption |]. intros o _ Ho. exact Ho.
  - assumption.
  - assumption.
  - rewrite fmap_alter_same by reflexivity. now rewrite Hsame.
Qed.

(** An open or a ping of a socket puts a new pending timer, due a silence
    window later, into the socket's own [eventHeartbeatTimer], and the
    timer that was there before is cleared. *)
Lemma dispatch_heartbeat_resets_timer ws e now s o :
  e = OnOpen \/ e = OnPing ->
  sockets s !! ws = Some o ->
  let s' := dispatch cfg ws e now s in
  let handle := length (timers s) in
  (ws_eventHeartbeatTimer <$> sockets s' !! ws) = Some (Some handle) /\
  timers s' !! handle
    = Some (mkTimer (now + PROTECT_EVENTS_HEARTBEAT_INTERVAL cfg * 1000) true (ObjSocket ws)) /\
  (forall i, ws_eventHeartbeatTimer o = Some i -> (i < handle)%nat ->
     (pending <$> timers s' !! i) = Some false).
Proof.
  intros He Ho s' handle.
  assert (s' = heartbeatEventListener cfg (ObjSocket ws) now s) as ->
    by (subst s'; destruct He as [-> | ->]; reflexivity).
  unfold heartbeatEventListener, heartbeatTimerOf. rewrite Ho. cbn.
  assert (length (timers (clearTimeout (ws_eventHeartbeatTimer o) s)) = handle) as Hlen.
  { unfold clearTimeout. destruct (ws_eventHeartbeatTimer o); cbn; [| reflexivity].
    apply length_alter. }
  assert (sockets (clearTimeout (ws_eventHeartbeatTimer o) s) = sockets s) as Hsockets.
  { unfold clearTimeout. destruct (ws_eventHeartbeatTimer o); reflexivity. }
  rewrite Hlen, Hsockets. repeat split.
  - rewrite list_lookup_alter_eq, Ho. reflexivity.
  - rewrite lookup_app_r by lia. rewrite Hlen, Nat.sub_diag. reflexivity.
  - intros i Hi Hlt. rewrite lookup_app_l by lia.
    rewrite Hi. cbn. rewrite list_lookup_alter_eq.
    destruct (lookup_lt_is_Some_2 (timers s) i Hlt) as [t Ht]. rewrite Ht. reflexivity.
Qed.

(** The callback of a timer that has captured a socket terminates nothing
    and leaves the client's handle alone. *)
Lemma heartbeatExpired_on_socket_keeps ws s :
  heartbeatsOnSockets s ->
  heartbeatsOnSockets (heartbeatExpired (ObjSocket ws) s) /\
  eventListener (heartbeatExpired (ObjSocket ws) s) = eventListener s /\
  eventListenerConfigured (heartbeatExpired (ObjSocket ws) s) = eventListenerConfigured s /\
  terminated <$> sockets (heartbeatExpired (ObjSocket ws) s) = terminated <$> sockets s.
Proof.
  intros [Htimers Hsockets]. unfold heartbeatExpired.
  assert (match sockets s !! ws ≫= ws_eventListener with
          | Some (Some other) => terminate other s
          | _ => s
          end = s) as ->.
  { destruct (sockets s !! ws) as [o |] eqn:Ho; cbn; [| reflexivity].
    destruct (ws_eventListener o) as [[other |] |] eqn:Hl; try reflexivity.
    rewrite Forall_lookup in Hsockets. now destruct (Hsockets ws o Ho other). }
  cbn. repeat split; try assumption.
  - cbn. apply Forall_alter; [assumption |]. intros o _ _ other. cbn. discriminate.
  - now rewrite fmap_alter_same by reflexivity.
Qed.

Lemma fireTimer_keeps now i s :
  heartbeatsOnSockets s ->
  heartbeatsOnSockets (fireTimer now i s) /\
  eventListener (fireTimer now i s) = eventListener s /\
  eventListenerConfigured (fireTimer now i s) = eventListenerConfigured s /\
  terminated <$> sockets (fireTimer now i s) = terminated <$> sockets s.
Proof.
  intros Hinv. unfold fireTimer.
  destruct (timers s !! i) as [t |] eqn:Ht; [| split; [assumption | repeat split]].
  destruct (pending t && (due t <=? now)); [| split; [assumption | repeat split]].
  pose proof Hinv as [Htimers Hsockets].
  rewrite Forall_lookup in Htimers. specialize (Htimers i t Ht).
  destruct (timer_self t) as [| ws] eqn:Hself; [now destruct Htimers |].
  apply (heartbeatExpired_on_socket_keeps ws
           (set_timers (alter (fun t => mkTimer (due t) false (timer_self t)) i (timers s)) s)).
  split; cbn; [| assumption].
  apply Forall_alter; [apply Hinv |]. intros t' _ Ht'. exact Ht'.
Qed.

Lemma elapse_keeps now s :
  heartbeatsOnSockets s ->
  heartbeatsOnSockets (elapse now s) /\
  eventListener (elapse now s) = eventListener s /\
  eventListenerConfigured (elapse now s) = eventListenerConfigured s /\
  terminated <$> sockets (elapse now s) = terminated <$> sockets s.
Proof.
  unfold elapse. generalize (seq 0 (length (timers s))). intros l. revert s.
  induction l as [| i l IH]; intros s Hinv; cbn; [split; [assumption | repeat split] |].
  destruct (fireTimer_keeps now i s Hinv) as (Hinv' & Hl & Hc & Ht).
  destruct (IH _ Hinv') as (Hinv'' & Hl' & Hc' & Ht').
  split; [exact Hinv'' |]. split; [now rewrite Hl' |].
  split; [now rewrite Hc' | now rewrite Ht'].
Qed.

End Heartbeat.

(** ** The operations keep the heartbeat timers on the sockets *)

Create HintDb keeps.

Section Keeps.

Lemma keeps_ret {A} (a : A) : keeps (ret a).
Proof. intros s r s' Hinv [= _ <-]. exact Hinv. Qed.

Lemma keeps_throw {A} e : keeps (@throw A e).
Proof. intros s r s' Hinv [= _ <-]. exact Hinv. Qed.

Lemma keeps_get : keeps get.
Proof. intros s r s' Hinv [= _ <-]. exact Hinv. Qed.

Lemma keeps_modify f :
  (forall s, heartbeatsOnSockets s -> heartbeatsOnSockets (f s)) -> keeps (modify f).
Proof. intros Hf s r s' Hinv [= _ <-]. now apply Hf. Qed.

Lemma keeps_bind {A B} (m : M A) (k : A -> M B) :
  keeps m -> (forall a, keeps (k a)) -> keeps (m ≫= k).
Proof.
  intros Hm Hk s r s' Hinv Hrun. unfold mbind, M_bind in Hrun.
  destruct (m s) as [[a | e] s1] eqn:Hms.
  - exact (Hk a s1 r s' (Hm _ _ _ Hinv Hms) Hrun).
  - injection Hrun as _ <-. exact (Hm _ _ _ Hinv Hms).
Qed.

Lemma keeps_pure {A} (o : Outcome A) : keeps (fun s => (o, s)).
Proof. intros s r s' Hinv [= _ <-]. exact Hinv. Qed.

Context (cfg : Settings) (world : World).

Lemma keeps_log m : keeps (log m).
Proof. apply keeps_modify. intros s Hinv. exact Hinv. Qed.

Lemma keeps_debug m : keeps (debug m).
Proof. apply keeps_modify. intros s Hinv. exact Hinv. Qed.

Lemma keeps_dateNow : keeps (dateNow world).
Proof. intros s r s' Hinv [= _ <-]. exact Hinv. Qed.

Lemma keeps_nodeFetch url m b : keeps (nodeFetch world url m b).
Proof. intros s r s' Hinv [= _ <-]. exact Hinv. Qed.

Lemma terminate_keeps ws s : heartbeatsOnSockets s -> heartbeatsOnSockets (terminate ws s).
Proof.
  intros [Htimers Hsockets]. split; [exact Htimers |]. cbn.
  apply Forall_alter; [assumption |]. intros o _ Ho. exact Ho.
Qed.

Lemma terminateListener_keeps s :
  heartbeatsOnSockets s -> heartbeatsOnSockets (terminateListener s).
Proof.
  intros Hinv. unfold terminateListener.
  destruct (eventListener s) as [ws |]; [| exact Hinv].
  exact (terminate_keeps ws s Hinv).
Qed.

Lemma clearLoginCredentials_keeps s :
  heartbeatsOnSockets s -> heartbeatsOnSockets (clearLoginCredentials s).
Proof.
  destruct s as [? ? ? ? ? listener ? ? ? ? ? ? ? ? ? ? ? ? ? ? ?].
  unfold heartbeatsOnSockets, clearLoginCredentials, terminateListener. cbn.
  intros [Htimers Hsockets]. split; [exact Htimers |].
  destruct listener as [ws |]; cbn; [| exact Hsockets].
  apply Forall_alter; [assumption |]. intros o _ Ho. exact Ho.
Qed.

(** One step of a proof that a method keeps the invariant. *)
Ltac keeps_step :=
  lazymatch goal with
  | |- keeps (ret _) => apply keeps_ret
  | |- keeps (throw _) => apply keeps_throw
  | |- keeps get => apply keeps_get
  | |- keeps (log _) => apply keeps_log
  | |- keeps (debug _) => apply keeps_debug
  | |- keeps (dateNow _) => apply keeps_dateNow
  | |- keeps (nodeFetch _ _ _ _) => apply keeps_nodeFetch
  | |- keeps (modify clearLoginCredentials) =>
      apply keeps_modify; exact clearLoginCredentials_keeps
  | |- keeps (modify _) => apply keeps_modify; intros ? Hinv; exact Hinv
  | |- keeps (mbind _ _) => apply keeps_bind; [| intros ?]
  | |- keeps (if ?c then _ else _) => destruct c
  | |- keeps (match ?c with _ => _ end) => destruct c
  | |- keeps (fun s => (_, s)) => apply keeps_pure
  | |- _ => solve [auto 1 with keeps nocore]
  end.

Lemma keeps_fetch url m b logErrors decodeResponse :
  keeps (fetch cfg world url m b logErrors decodeResponse).
Proof. unfold fetch. repeat keeps_step. Qed.
#[local] Hint Resolve keeps_fetch : keeps.

Lemma keeps_acquireToken : keeps (acquireToken cfg world).
Proof. unfold acquireToken. repeat keeps_step. Qed.
#[local] Hint Resolve keeps_acquireToken : keeps.

Lemma keeps_loginProtect : keeps (loginProtect cfg world).
Proof.
  unfold loginProtect. repeat keeps_step. 
Qed.
#[local] Hint Resolve keeps_loginProtect : keeps.

Lemma keeps_checkAdminUserStatus firstRun : keeps (checkAdminUserStatus firstRun).
Proof. unfold checkAdminUserStatus. repeat keeps_step. Qed.
#[local] Hint Resolve keeps_checkAdminUserStatus : keeps.

Lemma keeps_newWebSocket url : keeps (newWebSocket world url).
Proof.
  intros s r s' [Htimers Hsockets] Hrun. unfold newWebSocket in Hrun.
  destruct (socket world (length (sockets s)) url); injection Hrun as _ <-;
    [| now split].
  split; [exact Htimers |]. cbn. apply Forall_app. split; [assumption |].
  repeat constructor. discriminate.
Qed.
#[local] Hint Resolve keeps_newWebSocket : keeps.

Lemma keeps_launchEventListener : keeps (launchEventListener cfg world).
Proof.
  unfold launchEventListener. repeat keeps_step.
Qed.
#[local] Hint Resolve keeps_launchEventListener : keeps.

Lemma keeps_bootstrapProtect : keeps (bootstrapProtect cfg world).
Proof.
  unfold bootstrapProtect. repeat keeps_step.
Qed.
#[local] Hint Resolve keeps_bootstrapProtect : keeps.

Lemma keeps_forOf {A} (l : list A) (body : A -> M unit) :
  (forall x, keeps (body x)) -> keeps (forOf l body).
Proof.
  intros Hbody. induction l as [| x l IH]; cbn; [apply keeps_ret |].
  apply keeps_bind; [apply Hbody | intros _; exact IH].
Qed.

Lemma keeps_refreshDevices : keeps (refreshDevices cfg world).
Proof.
  unfold refreshDevices.
  repeat first [ keeps_step | apply keeps_forOf; intros ? ].
Qed.

Lemma keeps_enableRtsp device : keeps (enableRtsp cfg world device).
Proof.
  unfold enableRtsp. repeat keeps_step.
Qed.

Lemma keeps_updateCamera device payload : keeps (updateCamera cfg world device payload).
Proof.
  unfold updateCamera. repeat keeps_step.
Qed.

End Keeps.

(** Every event of a socket keeps the timers on the sockets. *)
Lemma dispatch_keeps cfg ws e now s :
  heartbeatsOnSockets s -> heartbeatsOnSockets (dispatch cfg ws e now s).
Proof.
  intros Hinv. destruct e as [| | | message].
  - now apply dispatch_heartbeat_keeps; [left |].
  - now apply dispatch_heartbeat_keeps; [right |].
  - now apply clearTimeout_keeps.
  - cbn. destruct (String.eqb message _).
    + exact (terminateListener_keeps s Hinv).
    + exact (terminateListener_keeps (set_output _ s) Hinv).
Qed.

(** The timers are on the sockets in every state a client can be in. *)
Lemma reachable_heartbeatsOnSockets cfg s :
  reachable cfg s -> heartbeatsOnSockets s.
Proof.
  induction 1 as [nvrAddress username password | s s' _ Hinv Hstep].
  - apply clearLoginCredentials_keeps. split; constructor.
  - destruct Hstep.
    + exact (keeps_refreshDevices cfg world s _ _ Hinv (surjective_pairing _)).
    + exact (keeps_enableRtsp cfg world device s _ _ Hinv (surjective_pairing _)).
    + exact (keeps_updateCamera cfg world device payload s _ _ Hinv (surjective_pairing _)).
    + now apply clearLoginCredentials_keeps.
    + now apply dispatch_keeps.
    + now apply elapse_keeps.
Qed.

(** C6 (code bug).  In a state that the client can be in, a socket opens
    and stays silent.  Whatever time has passed when the timers run, the
    client still holds the listener it held, its configured flag is what it
    was, and no socket has been terminated: the expiry of the heartbeat
    acts on the socket object that the timer's callback has captured, not
    on the client. *)
Theorem heartbeat_expiry_keeps_listener cfg ws now later s :
  reachable cfg s ->
  let silent := elapse later (dispatch cfg ws OnOpen now s) in
  eventListener silent = eventListener s /\
  eventListenerConfigured silent = eventListenerConfigured s /\
  terminated <$> sockets silent = terminated <$> sockets s.
Proof.
  intros Hreach silent. apply reachable_heartbeatsOnSockets in Hreach.
  destruct (dispatch_heartbeat_keeps cfg ws OnOpen now s (or_introl eq_refl) Hreach)
    as (Hopened & Hl & Hc & Ht).
  destruct (elapse_keeps later _ Hopened) as (_ & Hl' & Hc' & Ht').
  subst silent. rewrite Hl', Hc', Ht'. auto.
Qed.

(** The synchronised client listens on socket 0; a silence window after
    the socket has opened it still does, and the socket is not terminated. *)
Lemma heartbeat_expiry_keeps_listener_witness :
  let silent := elapse 12000 (dispatch sampleSettings 0 OnOpen 2000 syncedClient) in
  eventListener silent = Some 0%nat /\
  terminated <$> sockets silent = [false].
Proof.
  intros silent.
  assert (sockets syncedClient = [mkWebSocket false None None None]) as Hsockets
    by (vm_compute; reflexivity).
  assert (eventListener syncedClient = Some 0%nat) as Hlistener by (vm_compute; reflexivity).
  destruct (heartbeat_expiry_keeps_listener sampleSettings 0 2000 12000 syncedClient)
    as (Hl & _ & Ht).
  - apply (reachable_step _ freshClient).
    + apply reachable_new.
    + apply step_refreshDevices.
  - subst silent. rewrite Hl, Ht, Hlistener, Hsockets. split; reflexivity.
Defined.

(** The same run, step by step: the timer is pending after the open, it
    has run after the silence window, the listener is still held, and the
    next synchronisation makes no new socket. *)
Example heartbeat_expiry_run :
  let opened := dispatch sampleSettings 0 OnOpen 2000 syncedClient in
  let silent := elapse (2000 + PROTECT_EVENTS_HEARTBEAT_INTERVAL sampleSettings * 1000) opened in
  (pending <$> timers opened !! 0%nat) = Some true /\
  (pending <$> timers silent !! 0%nat) = Some false /\
  (terminated <$> sockets silent !! 0%nat) = Some false /\
  eventListener silent = Some 0%nat /\
  length (sockets (snd (refreshDevices sampleSettings changedController silent))) = 1%nat.
Proof. repeat split; vm_compute; reflexivity. Qed.
